(** * Thread-local storage of the interpreter: src/shims/tls.rs

    A shallow embedding of [TlsData] (the key registry, the per-thread
    values, the macOS-style global destructors and the set of threads whose
    destructors are running) and of the two drivers that run TLS destructors
    when a thread terminates. *)

From Stdlib Require Import ZArith List String Bool Lia Sorting.Sorted.
Import ListNotations.
Open Scope Z_scope.

(** ** Machine data used by the shim *)

(** [pub type TlsKey = u128;] *)
Definition TlsKey := Z.
Definition u128_max : Z := 2 ^ 128 - 1.

(** [ThreadId] wraps a thread index. *)
Definition ThreadId := Z.

(** [ty::Instance]: a function the guest program can call, identified by
    an opaque number. *)
Definition Instance := nat.

(** [Scalar<Tag>]: raw bits or a pointer into an allocation. *)
Inductive Scalar : Type :=
| Raw (bits : Z)
| Ptr (alloc_id : nat) (offset : Z).

(** [Scalar::null_ptr(cx)] *)
Definition null_ptr : Scalar := Raw 0.

(** [this.is_null(ptr)]: a pointer into an allocation is never null. *)
Definition is_null (s : Scalar) : bool :=
  match s with
  | Raw b => Z.eqb b 0
  | Ptr _ _ => false
  end.

(** [rustc_target::abi::Size]: a size counted in bytes ([raw: u64]). *)
Record Size := mkSize { size_raw : N }.

(** [Size::bits] *)
Definition bits (s : Size) : Z := Z.of_N (size_raw s) * 8.

(** [Size::from_bits]: rounds up to whole bytes. *)
Definition from_bits (b : N) : Size :=
  mkSize (b / 8 + (b mod 8 + 7) / 8)%N.

(** The errors of [InterpResult]: [throw_ub_format!] gives [Ub],
    [throw_unsup_format!] gives [Unsup]; a Rust panic of the interpreter
    itself ([assert!], [unwrap_none], u128 overflow) gives [Panic]. *)
Inductive InterpError : Type :=
| Ub (msg : string)
| Unsup (msg : string)
| Panic (msg : string).

Inductive InterpResult (A : Type) : Type :=
| Ok (a : A)
| Err (e : InterpError).
Arguments Ok {A} a.
Arguments Err {A} e.

(** ** [std::collections::BTreeMap] with integer keys

    A map is an association list sorted by strictly ascending key; the
    operations keep it sorted. *)
Module BMap.

Definition t (V : Type) := list (Z * V).

Definition empty {V} : t V := [].

(** [BTreeMap::get] *)
Fixpoint get {V} (k : Z) (m : t V) : option V :=
  match m with
  | [] => None
  | (k', v) :: m' => if Z.eqb k k' then Some v else get k m'
  end.

(** [BTreeMap::insert]: returns the previous value. *)
Fixpoint insert {V} (k : Z) (v : V) (m : t V) : option V * t V :=
  match m with
  | [] => (None, [(k, v)])
  | (k', v') :: m' =>
      match Z.compare k k' with
      | Lt => (None, (k, v) :: m)
      | Eq => (Some v', (k, v) :: m')
      | Gt => let (o, m'') := insert k v m' in (o, (k', v') :: m'')
      end
  end.

(** [BTreeMap::remove]: returns the removed value. *)
Fixpoint remove {V} (k : Z) (m : t V) : option V * t V :=
  match m with
  | [] => (None, [])
  | (k', v') :: m' =>
      match Z.compare k k' with
      | Lt => (None, m)
      | Eq => (Some v', m')
      | Gt => let (o, m'') := remove k m' in (o, (k', v') :: m'')
      end
  end.

Definition sorted {V} (m : t V) : Prop := StronglySorted Z.lt (map fst m).

End BMap.

(** [HashSet<ThreadId>] *)
Definition contains (s : list ThreadId) (x : ThreadId) : bool :=
  existsb (Z.eqb x) s.

Definition hs_insert (s : list ThreadId) (x : ThreadId) : list ThreadId :=
  if contains s x then s else x :: s.

(** ** [TlsEntry] and [TlsData] *)

Record TlsEntry := mkTlsEntry {
  data : BMap.t Scalar;
  dtor : option Instance
}.

Record TlsData := mkTlsData {
  next_key : TlsKey;
  keys : BMap.t TlsEntry;
  global_dtors : BMap.t (Instance * Scalar);
  dtors_running : list ThreadId
}.

Definition set_next_key (st : TlsData) (n : TlsKey) : TlsData :=
  mkTlsData n (keys st) (global_dtors st) (dtors_running st).
Definition set_keys (st : TlsData) (ks : BMap.t TlsEntry) : TlsData :=
  mkTlsData (next_key st) ks (global_dtors st) (dtors_running st).
Definition set_global_dtors (st : TlsData) (g : BMap.t (Instance * Scalar)) : TlsData :=
  mkTlsData (next_key st) (keys st) g (dtors_running st).
Definition set_dtors_running (st : TlsData) (r : list ThreadId) : TlsData :=
  mkTlsData (next_key st) (keys st) (global_dtors st) r.

(** [impl Default for TlsData]: keys start at 1. *)
Definition tls_default : TlsData := mkTlsData 1 BMap.empty BMap.empty [].

(** [TlsData::create_tls_key].  The counter is a [u128]: [self.next_key += 1]
    panics on overflow; [unwrap_none] panics when the key was present. *)
Definition create_tls_key (st : TlsData) (dtor : option Instance) (max_size : Size)
    : InterpResult TlsKey * TlsData :=
  let new_key := next_key st in
  if Z.ltb u128_max (new_key + 1) then (Err (Panic "attempt to add with overflow"), st) else
  let st := set_next_key st (new_key + 1) in
  let (old, ks) := BMap.insert new_key (mkTlsEntry BMap.empty dtor) (keys st) in
  let st := set_keys st ks in
  match old with
  | Some _ => (Err (Panic "unwrap_none"), st)
  | None =>
      if Z.ltb (bits max_size) 128 && Z.leb (Z.shiftl 1 (bits max_size)) new_key
      then (Err (Unsup "we ran out of TLS key space"), st)
      else (Ok new_key, st)
  end.

(** [TlsData::delete_tls_key] *)
Definition delete_tls_key (st : TlsData) (key : TlsKey) : InterpResult unit * TlsData :=
  match BMap.remove key (keys st) with
  | (Some _, ks) => (Ok tt, set_keys st ks)
  | (None, _) => (Err (Ub "removing a non-existig TLS key"), st)
  end.

(** [TlsData::load_tls] *)
Definition load_tls (st : TlsData) (key : TlsKey) (thread_id : ThreadId) : InterpResult Scalar :=
  match BMap.get key (keys st) with
  | Some e =>
      match BMap.get thread_id (data e) with
      | Some v => Ok v
      | None => Ok null_ptr
      end
  | None => Err (Ub "loading from a non-existing TLS key")
  end.

(** [TlsData::store_tls] *)
Definition store_tls (st : TlsData) (key : TlsKey) (thread_id : ThreadId) (new_data : option Scalar)
    : InterpResult unit * TlsData :=
  match BMap.get key (keys st) with
  | Some e =>
      let data' :=
        match new_data with
        | Some ptr => snd (BMap.insert thread_id ptr (data e))
        | None => snd (BMap.remove thread_id (data e))
        end in
      (Ok tt, set_keys st (snd (BMap.insert key (mkTlsEntry data' (dtor e)) (keys st))))
  | None => (Err (Ub "storing to a non-existing TLS key"), st)
  end.

(** [TlsData::set_global_dtor] *)
Definition set_global_dtor (st : TlsData) (thread : ThreadId) (dtor : Instance) (data : Scalar)
    : InterpResult unit * TlsData :=
  if contains (dtors_running st) thread
  then (Err (Ub "setting global destructor while destructors are already running"), st)
  else
    let (old, g) := BMap.insert thread (dtor, data) (global_dtors st) in
    let st := set_global_dtors st g in
    match old with
    | Some _ => (Err (Unsup "setting more than one global destructor for the same thread is not supported"), st)
    | None => (Ok tt, st)
    end.

(** [start] of [range_mut((start, Unbounded))]: [Excluded(key)] or [Unbounded]. *)
Definition in_range (start : option TlsKey) (k : TlsKey) : bool :=
  match start with
  | Some key => Z.ltb key k
  | None => true
  end.

(** The loop of [TlsData::fetch_tls_dtor] over [range_mut]. *)
Fixpoint fetch_loop (start : option TlsKey) (thread_id : ThreadId) (ks : BMap.t TlsEntry)
    : option (Instance * Scalar * TlsKey) * BMap.t TlsEntry :=
  match ks with
  | [] => (None, [])
  | (key, e) :: ks' =>
      if in_range start key then
        match BMap.remove thread_id (data e) with
        | (Some data_scalar, data') =>
            let e' := mkTlsEntry data' (dtor e) in
            match dtor e with
            | Some d => (Some (d, data_scalar, key), (key, e') :: ks')
            | None => let (r, ks'') := fetch_loop start thread_id ks' in (r, (key, e') :: ks'')
            end
        | (None, _) => let (r, ks'') := fetch_loop start thread_id ks' in (r, (key, e) :: ks'')
        end
      else let (r, ks'') := fetch_loop start thread_id ks' in (r, (key, e) :: ks'')
  end.

(** [TlsData::fetch_tls_dtor] *)
Definition fetch_tls_dtor (st : TlsData) (key : option TlsKey) (thread_id : ThreadId)
    : option (Instance * Scalar * TlsKey) * TlsData :=
  let (r, ks) := fetch_loop key thread_id (keys st) in (r, set_keys st ks).

(** [?] on an [InterpResult]. *)
Definition bind {A B} (r : InterpResult A) (k : A -> InterpResult B) : InterpResult B :=
  match r with
  | Ok a => k a
  | Err e => Err e
  end.
Notation "x <- r ;; k" := (bind r (fun x => k)) (at level 61, r at next level, right associativity).

(** ** The destructor drivers ([EvalContextExt])

    The interpreter state as far as these drivers see it: [this.machine.tls]
    and the calls they start with [call_function]. *)
Record Machine := mkMachine {
  tls : TlsData;
  calls : list (Instance * list Scalar)
}.

Definition set_tls (m : Machine) (st : TlsData) : Machine := mkMachine st (calls m).

Section Drivers.

(** [this.tcx.sess.target.target.target_os] *)
Variable target_os : string.
(** [this.get_active_thread()] *)
Variable active_thread : ThreadId.
(** [this.has_terminated(thread)] *)
Variable has_terminated : ThreadId -> bool.
(** [this.call_function(f, args, ..)] followed by [this.run()]: the guest
    function runs until its frames are popped; it may use the TLS shims. *)
Variable exec : Instance -> list Scalar -> TlsData -> InterpResult TlsData.
(** [this.eval_path_scalar(path)] *)
Variable eval_path_scalar : list string -> InterpResult Scalar.
(** [this.memory.get_fn(ptr)?.as_instance()] *)
Variable get_fn : Scalar -> InterpResult Instance.

Definition call_function (m : Machine) (f : Instance) (args : list Scalar) : InterpResult Machine :=
  st <- exec f args (tls m) ;; Ok (mkMachine st (calls m ++ [(f, args)])).

(** [run_windows_tls_dtors] *)
Definition run_windows_tls_dtors (m : Machine) : InterpResult Machine :=
  if negb (String.eqb target_os "windows") then Ok m else
  if negb (Z.eqb active_thread 0) then Err (Panic "concurrency on Windows not supported") else
  if contains (dtors_running (tls m)) active_thread then Err (Panic "running TLS dtors twice") else
  let m := set_tls m (set_dtors_running (tls m) (hs_insert (dtors_running (tls m)) active_thread)) in
  cb <- eval_path_scalar ["std"; "sys"; "windows"; "thread_local"; "p_thread_callback"]%string ;;
  thread_callback <- get_fn cb ;;
  reason <- eval_path_scalar ["std"; "sys"; "windows"; "c"; "DLL_PROCESS_DETACH"]%string ;;
  call_function m thread_callback [null_ptr; reason; null_ptr].

(** The [while let] loop of [run_tls_dtors_for_active_thread]; [fuel] bounds
    the number of destructor calls ([None]: out of fuel). *)
Fixpoint dtor_loop (fuel : nat) (thread_id : ThreadId) (m : Machine)
    (dtor : option (Instance * Scalar * TlsKey)) : option (InterpResult Machine) :=
  match dtor with
  | None => Some (Ok m)
  | Some (instance, ptr, key) =>
      match fuel with
      | O => None
      | S fuel' =>
          if is_null ptr then Some (Err (Panic "Data can't be NULL when dtor is called!")) else
          match call_function m instance [ptr] with
          | Err e => Some (Err e)
          | Ok m =>
              let (r1, st1) := fetch_tls_dtor (tls m) (Some key) thread_id in
              match r1 with
              | Some _ => dtor_loop fuel' thread_id (set_tls m st1) r1
              | None =>
                  let (r2, st2) := fetch_tls_dtor st1 None thread_id in
                  dtor_loop fuel' thread_id (set_tls m st2) r2
              end
          end
      end
  end.

(** [run_tls_dtors_for_active_thread] *)
Definition run_tls_dtors_for_active_thread (fuel : nat) (m : Machine) : option (InterpResult Machine) :=
  if String.eqb target_os "windows" then Some (Ok m) else
  let thread_id := active_thread in
  if contains (dtors_running (tls m)) thread_id then Some (Err (Panic "running TLS dtors twice")) else
  let m := set_tls m (set_dtors_running (tls m) (hs_insert (dtors_running (tls m)) thread_id)) in
  let after_global (m : Machine) :=
    if negb (has_terminated thread_id)
    then Some (Err (Panic "running TLS dtors for non-terminated thread"))
    else
      let (r, st) := fetch_tls_dtor (tls m) None thread_id in
      dtor_loop fuel thread_id (set_tls m st) r in
  match BMap.get thread_id (global_dtors (tls m)) with
  | Some (instance, data) =>
      match call_function m instance [data] with
      | Err e => Some (Err e)
      | Ok m => after_global m
      end
  | None => after_global m
  end.

End Drivers.

(** ** The draining procedure as the specification words it

    A second definition of [run_tls_dtors_for_active_thread], following the
    steps of the draining driver in the specification: the state of the loop
    is [lastKey]; each round is one [fetchNext] scan; a scan after the last
    run key that yields nothing restarts from the beginning, and a scan from
    the beginning that yields nothing ends the loop.  [fuel] bounds the
    number of scans. *)
Section DrainBySpec.

Variable thread : ThreadId.
Variable has_terminated : ThreadId -> bool.
Variable exec : Instance -> list Scalar -> TlsData -> InterpResult TlsData.

Fixpoint spec_loop (fuel : nat) (m : Machine) (lastKey : option TlsKey) : option (InterpResult Machine) :=
  match fuel with
  | O => None
  | S fuel' =>
      let (r, st) := fetch_tls_dtor (tls m) lastKey thread in
      let m := set_tls m st in
      match r with
      | Some (d, v, k) =>
          if is_null v then Some (Err (Panic "Data can't be NULL when dtor is called!")) else
          match call_function exec m d [v] with
          | Err e => Some (Err e)
          | Ok m => spec_loop fuel' m (Some k)
          end
      | None =>
          match lastKey with
          | None => Some (Ok m)
          | Some _ => spec_loop fuel' m None
          end
      end
  end.

(** What [spec_loop] does with the result [r] of a scan from [lastKey]. *)
Definition spec_continue (fuel : nat) (m : Machine) (lastKey : option TlsKey)
    (r : option (Instance * Scalar * TlsKey)) : option (InterpResult Machine) :=
  match r with
  | Some (d, v, k) =>
      if is_null v then Some (Err (Panic "Data can't be NULL when dtor is called!")) else
      match call_function exec m d [v] with
      | Err e => Some (Err e)
      | Ok m => spec_loop fuel m (Some k)
      end
  | None =>
      match lastKey with
      | None => Some (Ok m)
      | Some _ => spec_loop fuel m None
      end
  end.

Definition spec_drain (fuel : nat) (m : Machine) : option (InterpResult Machine) :=
  if contains (dtors_running (tls m)) thread then Some (Err (Panic "running TLS dtors twice")) else
  let m := set_tls m (set_dtors_running (tls m) (hs_insert (dtors_running (tls m)) thread)) in
  let global :=
    match BMap.get thread (global_dtors (tls m)) with
    | Some (g, a) => call_function exec m g [a]
    | None => Ok m
    end in
  match global with
  | Err e => Some (Err e)
  | Ok m =>
      if negb (has_terminated thread)
      then Some (Err (Panic "running TLS dtors for non-terminated thread"))
      else spec_loop fuel m None
  end.

End DrainBySpec.

(** ** Sessions: sequences of calls to the registry

    Every call of the shim; the first error ends the interpretation. *)
Inductive Op : Type :=
| OpCreate (dtor : option Instance) (max_size : Size)
| OpDelete (key : TlsKey)
| OpLoad (key : TlsKey) (thread : ThreadId)
| OpStore (key : TlsKey) (thread : ThreadId) (new_data : option Scalar)
| OpSetGlobalDtor (thread : ThreadId) (dtor : Instance) (data : Scalar)
| OpFetchDtor (key : option TlsKey) (thread : ThreadId).

(** One call; [Some k] for a key returned by [create_tls_key]. *)
Definition op_step (st : TlsData) (op : Op) : InterpResult (option TlsKey) * TlsData :=
  match op with
  | OpCreate d s =>
      match create_tls_key st d s with
      | (Ok k, st') => (Ok (Some k), st')
      | (Err e, st') => (Err e, st')
      end
  | OpDelete k =>
      match delete_tls_key st k with
      | (Ok _, st') => (Ok None, st')
      | (Err e, st') => (Err e, st')
      end
  | OpLoad k t =>
      match load_tls st k t with
      | Ok _ => (Ok None, st)
      | Err e => (Err e, st)
      end
  | OpStore k t v =>
      match store_tls st k t v with
      | (Ok _, st') => (Ok None, st')
      | (Err e, st') => (Err e, st')
      end
  | OpSetGlobalDtor t d a =>
      match set_global_dtor st t d a with
      | (Ok _, st') => (Ok None, st')
      | (Err e, st') => (Err e, st')
      end
  | OpFetchDtor k t => (Ok None, snd (fetch_tls_dtor st k t))
  end.

(** The keys returned to the guest, in order, and the final registry. *)
Fixpoint run_ops (st : TlsData) (ops : list Op) : list TlsKey * TlsData :=
  match ops with
  | [] => ([], st)
  | op :: ops' =>
      match op_step st op with
      | (Ok r, st') =>
          let (ks, st'') := run_ops st' ops' in
          (match r with Some k => k :: ks | None => ks end, st'')
      | (Err _, st') => ([], st')
      end
  end.

(** ** The scenario of three keys A, B, C for one thread *)

(** [pthread_key_t] on a 64-bit target. *)
Definition scenario_size : Size := mkSize 8%N.

(** Keys A = 1 (destructor [d1], value [v1]), B = 2 (no destructor, value
    [v2]) and C = 3 (destructor [d3], value [v3]), for thread [t]. *)
Definition scenario (t : ThreadId) (d1 d3 : Instance) (v1 v2 v3 : Scalar) : TlsData :=
  let st := tls_default in
  let (_, st) := create_tls_key st (Some d1) scenario_size in
  let (_, st) := create_tls_key st None scenario_size in
  let (_, st) := create_tls_key st (Some d3) scenario_size in
  let (_, st) := store_tls st 1 t (Some v1) in
  let (_, st) := store_tls st 2 t (Some v2) in
  let (_, st) := store_tls st 3 t (Some v3) in
  st.

(** Destructors that do not touch TLS. *)
Definition exec_noop (f : Instance) (args : list Scalar) (st : TlsData) : InterpResult TlsData := Ok st.

(** [d1] stores [v2'] under key B for thread [t]; other functions do not
    touch TLS. *)
Definition exec_store_b (t : ThreadId) (d1 : Instance) (v2' : Scalar)
    (f : Instance) (args : list Scalar) (st : TlsData) : InterpResult TlsData :=
  if Nat.eqb f d1 then
    match store_tls st 2 t (Some v2') with
    | (Ok _, st') => Ok st'
    | (Err e, _) => Err e
    end
  else Ok st.

(** ** Well-formed registries *)

Definition tls_wf (st : TlsData) : Prop :=
  BMap.sorted (keys st) /\
  Forall (fun p => BMap.sorted (data (snd p))) (keys st) /\
  BMap.sorted (global_dtors st).

(** The invariant of a session: the maps are well formed, the counter is
    in the range of a [u128] and above every registered key. *)
Definition tls_inv (st : TlsData) : Prop :=
  tls_wf st /\ 1 <= next_key st <= u128_max /\
  Forall (fun k => 1 <= k < next_key st) (map fst (keys st)).

(** The keys of a [fetch_tls_dtor] scan whose per-thread value has been
    taken: those in the range up to (and including) the returned key. *)
Definition scanned (start : option TlsKey) (r : option (Instance * Scalar * TlsKey)) (k : TlsKey) : bool :=
  in_range start k && match r with None => true | Some (_, _, kr) => Z.leb k kr end.

(** The entry [e] of a key after the scan, [taken] telling whether the scan
    visited it. *)
Definition scan_entry (t : ThreadId) (taken : bool) (e : TlsEntry) : TlsEntry :=
  mkTlsEntry (if taken then snd (BMap.remove t (data e)) else data e) (dtor e).

(** Nothing to run at an entry for thread [t]: no destructor or no value. *)
Definition no_dtor_to_run (t : ThreadId) (e : TlsEntry) : Prop :=
  dtor e = None \/ BMap.get t (data e) = None.

(** Thread [t] has no value stored under the key of [p]. *)
Definition entry_drained (t : ThreadId) (p : TlsKey * TlsEntry) : Prop :=
  BMap.get t (data (snd p)) = None.

(** The destructor calls of a drain of thread [t] over the registry [ks]
    when no destructor touches TLS: for each key in ascending order that has
    a destructor and a value for [t], one call of the destructor with that
    value. *)
Fixpoint pending_calls (t : ThreadId) (ks : BMap.t TlsEntry) : list (Instance * list Scalar) :=
  match ks with
  | [] => []
  | (_, e) :: ks' =>
      match dtor e, BMap.get t (data e) with
      | Some d, Some v => (d, [v]) :: pending_calls t ks'
      | _, _ => pending_calls t ks'
      end
  end.

(** The registry after all values of thread [t] are taken out. *)
Definition drain_all (t : ThreadId) (ks : BMap.t TlsEntry) : BMap.t TlsEntry :=
  map (fun p => (fst p, scan_entry t true (snd p))) ks.

(** The call of the global destructor of [t], if one is set. *)
Definition global_call (st : TlsData) (t : ThreadId) : list (Instance * list Scalar) :=
  match BMap.get t (global_dtors st) with
  | Some (g, a) => [(g, [a])]
  | None => []
  end.

(** ** Lemmas on the sorted maps *)
Module BMapFacts.
Import BMap.

Section Facts.
Context {V : Type}.

Lemma sorted_cons_inv (k : Z) (v : V) (m : t V) :
  sorted ((k, v) :: m) -> sorted m /\ Forall (fun k' => k < k') (map fst m).
Proof. intros H. inversion H; subst; split; assumption. Qed.

Lemma get_below (k : Z) (m : t V) :
  Forall (fun k' => k < k') (map fst m) -> get k m = None.
Proof.
  induction m as [|[k' v'] m IH]; simpl; intros H; [reflexivity|].
  inversion H; subst. destruct (Z.eqb_spec k k'); [lia|]. apply IH; assumption.
Qed.

Lemma get_insert_same (k : Z) (v : V) (m : t V) : get k (snd (insert k v m)) = Some v.
Proof.
  induction m as [|[k' v'] m IH]; simpl; [rewrite Z.eqb_refl; reflexivity|].
  destruct (Z.compare_spec k k') as [E|E|E]; simpl; rewrite ?Z.eqb_refl; try reflexivity.
  destruct (insert k v m) as [o m''] eqn:Hi. simpl in *.
  destruct (Z.eqb_spec k k'); [lia|]. exact IH.
Qed.

Lemma get_insert_other (k k0 : Z) (v : V) (m : t V) :
  k0 <> k -> get k0 (snd (insert k v m)) = get k0 m.
Proof.
  intros Hne. induction m as [|[k' v'] m IH]; simpl.
  - destruct (Z.eqb_spec k0 k); [lia|reflexivity].
  - destruct (Z.compare_spec k k') as [E|E|E]; simpl.
    + subst. destruct (Z.eqb_spec k0 k'); [lia|reflexivity].
    + destruct (Z.eqb_spec k0 k); [lia|reflexivity].
    + destruct (insert k v m) as [o m''] eqn:Hi. simpl in *.
      destruct (Z.eqb k0 k'); [reflexivity|exact IH].
Qed.

Lemma insert_old (k : Z) (v : V) (m : t V) : sorted m -> fst (insert k v m) = get k m.
Proof.
  induction m as [|[k' v'] m IH]; simpl; intros Hs; [reflexivity|].
  apply sorted_cons_inv in Hs as [Hs Hf].
  destruct (Z.compare_spec k k') as [E|E|E]; simpl.
  - subst. rewrite Z.eqb_refl. reflexivity.
  - destruct (Z.eqb_spec k k'); [lia|]. symmetry. apply get_below.
    eapply Forall_impl; [|exact Hf]. simpl. lia.
  - destruct (insert k v m) as [o m''] eqn:Hi. simpl in *.
    destruct (Z.eqb_spec k k'); [lia|]. apply IH; assumption.
Qed.

Lemma insert_keys (k : Z) (v : V) (m : t V) (P : Z -> Prop) :
  P k -> Forall P (map fst m) -> Forall P (map fst (snd (insert k v m))).
Proof.
  intros Hk. induction m as [|[k' v'] m IH]; simpl; intros Hf; [auto|].
  inversion Hf; subst.
  destruct (Z.compare_spec k k'); simpl; auto.
  destruct (insert k v m) as [o m''] eqn:Hi. simpl in *. auto.
Qed.

Lemma insert_sorted (k : Z) (v : V) (m : t V) : sorted m -> sorted (snd (insert k v m)).
Proof.
  unfold sorted. induction m as [|[k' v'] m IH]; simpl; intros Hs.
  - constructor; constructor.
  - inversion Hs as [|? ? Hs' Hf]; subst.
    destruct (Z.compare_spec k k') as [E|E|E]; simpl.
    + subst. constructor; assumption.
    + constructor; [assumption|]. constructor; [assumption|].
      eapply Forall_impl; [|exact Hf]. simpl. lia.
    + destruct (insert k v m) as [o m''] eqn:Hi. simpl in *.
      constructor; [apply IH; assumption|].
      change m'' with (snd (o, m'')). rewrite <- Hi. apply insert_keys; [lia|assumption].
Qed.

Lemma remove_keys (k : Z) (m : t V) (P : Z -> Prop) :
  Forall P (map fst m) -> Forall P (map fst (snd (remove k m))).
Proof.
  induction m as [|[k' v'] m IH]; simpl; intros Hf; [auto|].
  inversion Hf; subst.
  destruct (Z.compare_spec k k'); simpl; auto.
  destruct (remove k m) as [o m''] eqn:Hi. simpl in *. auto.
Qed.

Lemma remove_sorted (k : Z) (m : t V) : sorted m -> sorted (snd (remove k m)).
Proof.
  unfold sorted. induction m as [|[k' v'] m IH]; simpl; intros Hs; [constructor|].
  inversion Hs as [|? ? Hs' Hf]; subst.
  destruct (Z.compare_spec k k'); simpl; try assumption.
  destruct (remove k m) as [o m''] eqn:Hi. simpl in *.
  constructor; [apply IH; assumption|].
  change m'' with (snd (o, m'')). rewrite <- Hi. apply remove_keys; assumption.
Qed.

Lemma get_remove_same (k : Z) (m : t V) : sorted m -> get k (snd (remove k m)) = None.
Proof.
  induction m as [|[k' v'] m IH]; simpl; intros Hs; [reflexivity|].
  apply sorted_cons_inv in Hs as [Hs Hf].
  destruct (Z.compare_spec k k') as [E|E|E]; simpl.
  - subst. apply get_below. exact Hf.
  - destruct (Z.eqb_spec k k'); [lia|]. apply get_below.
    eapply Forall_impl; [|exact Hf]. simpl. lia.
  - destruct (remove k m) as [o m''] eqn:Hi. simpl in *.
    destruct (Z.eqb_spec k k'); [lia|]. apply IH; assumption.
Qed.

Lemma get_remove_other (k k0 : Z) (m : t V) :
  k0 <> k -> get k0 (snd (remove k m)) = get k0 m.
Proof.
  intros Hne. induction m as [|[k' v'] m IH]; simpl; [reflexivity|].
  destruct (Z.compare_spec k k') as [E|E|E]; simpl.
  - subst. destruct (Z.eqb_spec k0 k'); [lia|reflexivity].
  - reflexivity.
  - destruct (remove k m) as [o m''] eqn:Hi. simpl in *.
    destruct (Z.eqb k0 k'); [reflexivity|exact IH].
Qed.

Lemma remove_old (k : Z) (m : t V) : sorted m -> fst (remove k m) = get k m.
Proof.
  induction m as [|[k' v'] m IH]; simpl; intros Hs; [reflexivity|].
  apply sorted_cons_inv in Hs as [Hs Hf].
  destruct (Z.compare_spec k k') as [E|E|E]; simpl.
  - subst. rewrite Z.eqb_refl. reflexivity.
  - destruct (Z.eqb_spec k k'); [lia|]. symmetry. apply get_below.
    eapply Forall_impl; [|exact Hf]. simpl. lia.
  - destruct (remove k m) as [o m''] eqn:Hi. simpl in *.
    destruct (Z.eqb_spec k k'); [lia|]. apply IH; assumption.
Qed.

Lemma remove_absent (k : Z) (m : t V) : fst (remove k m) = None -> snd (remove k m) = m.
Proof.
  induction m as [|[k' v'] m IH]; simpl; [reflexivity|].
  destruct (Z.compare k k'); simpl; try (intros; reflexivity || discriminate).
  destruct (remove k m) as [o m''] eqn:Hi. simpl in *. intros H. rewrite IH; auto.
Qed.

Lemma get_in_keys (k : Z) (v : V) (m : t V) : get k m = Some v -> In k (map fst m).
Proof.
  induction m as [|[k' v'] m IH]; simpl; [discriminate|].
  destruct (Z.eqb_spec k k'); auto.
Qed.

Lemma get_absent (k : Z) (m : t V) : Forall (fun k' => k' <> k) (map fst m) -> get k m = None.
Proof.
  induction m as [|[k' v'] m IH]; simpl; intros H; [reflexivity|].
  inversion H; subst. destruct (Z.eqb_spec k k'); [congruence|]. apply IH; assumption.
Qed.

Lemma get_forall (P : Z * V -> Prop) (k : Z) (v : V) (m : t V) :
  Forall P m -> get k m = Some v -> P (k, v).
Proof.
  induction m as [|[k' v'] m IH]; simpl; intros H Hg; [discriminate|].
  inversion H; subst. destruct (Z.eqb_spec k k').
  - subst. injection Hg as <-. assumption.
  - apply IH; assumption.
Qed.

Lemma insert_forall (P : Z * V -> Prop) (k : Z) (v : V) (m : t V) :
  P (k, v) -> Forall P m -> Forall P (snd (insert k v m)).
Proof.
  intros Hk. induction m as [|[k' v'] m IH]; simpl; intros Hf; [auto|].
  inversion Hf; subst.
  destruct (Z.compare k k'); simpl; auto.
  destruct (insert k v m) as [o m''] eqn:Hi. simpl in *. auto.
Qed.

Lemma remove_forall (P : Z * V -> Prop) (k : Z) (m : t V) :
  Forall P m -> Forall P (snd (remove k m)).
Proof.
  induction m as [|[k' v'] m IH]; simpl; intros Hf; [auto|].
  inversion Hf; subst.
  destruct (Z.compare k k'); simpl; auto.
  destruct (remove k m) as [o m''] eqn:Hi. simpl in *. auto.
Qed.

End Facts.
End BMapFacts.

Lemma get_cons_other {V} (k key : Z) (x : V) (m : BMap.t V) :
  k <> key -> BMap.get k ((key, x) :: m) = BMap.get k m.
Proof. intros H. simpl. destruct (Z.eqb_spec k key); [lia|reflexivity]. Qed.

Lemma get_cons_same {V} (key : Z) (x : V) (m : BMap.t V) :
  BMap.get key ((key, x) :: m) = Some x.
Proof. simpl. rewrite Z.eqb_refl. reflexivity. Qed.

Lemma fetch_loop_keys (start : option TlsKey) (t : ThreadId) (ks : BMap.t TlsEntry) :
  map fst (snd (fetch_loop start t ks)) = map fst ks.
Proof.
  induction ks as [|[key e] ks IH]; simpl; [reflexivity|].
  destruct (in_range start key);
    [destruct (BMap.remove t (data e)) as [[v|] d'];
     [destruct (dtor e)|]|];
    try reflexivity;
    destruct (fetch_loop start t ks) as [r ks'']; simpl in *; rewrite IH; reflexivity.
Qed.

Lemma fetch_loop_result_key (start : option TlsKey) (t : ThreadId) (ks : BMap.t TlsEntry) d v kr :
  fst (fetch_loop start t ks) = Some (d, v, kr) -> In kr (map fst ks).
Proof.
  induction ks as [|[key e] ks IH]; simpl; [discriminate|].
  destruct (in_range start key);
    [destruct (BMap.remove t (data e)) as [[v'|] d'];
     [destruct (dtor e)|]|];
    try (intros H; injection H; intros; subst; left; reflexivity);
    destruct (fetch_loop start t ks) as [r ks'']; simpl in *; intros H; right; apply IH; exact H.
Qed.

Lemma scan_entry_false (t : ThreadId) (e : TlsEntry) : scan_entry t false e = e.
Proof. destruct e; reflexivity. Qed.

Lemma scan_entry_absent (t : ThreadId) (b : bool) (e : TlsEntry) :
  fst (BMap.remove t (data e)) = None -> scan_entry t b e = e.
Proof.
  intros H. destruct b; [|apply scan_entry_false].
  unfold scan_entry. rewrite (BMapFacts.remove_absent _ _ H). destruct e; reflexivity.
Qed.

Lemma fetch_loop_spec (start : option TlsKey) (t : ThreadId) (ks : BMap.t TlsEntry) :
  BMap.sorted ks -> Forall (fun p => BMap.sorted (data (snd p))) ks ->
  let (r, ks') := fetch_loop start t ks in
  (forall k e, BMap.get k ks = Some e -> BMap.get k ks' = Some (scan_entry t (scanned start r k) e)) /\
  match r with
  | Some (d, v, kr) =>
      in_range start kr = true /\
      (exists e, BMap.get kr ks = Some e /\ dtor e = Some d /\ BMap.get t (data e) = Some v) /\
      (forall k e, BMap.get k ks = Some e -> in_range start k = true -> k < kr -> no_dtor_to_run t e)
  | None => forall k e, BMap.get k ks = Some e -> in_range start k = true -> no_dtor_to_run t e
  end.
Proof.
  intros Hs Hd. induction ks as [|[key e] ks IH]; cbn [fetch_loop].
  { split; intros; discriminate. }
  apply BMapFacts.sorted_cons_inv in Hs as [Hs Hlt].
  inversion Hd as [|? ? Hde Hd']; subst; simpl in Hde.
  specialize (IH Hs Hd').
  assert (Habove : forall k x, BMap.get k ks = Some x -> key < k).
  { intros k x Hk. apply BMapFacts.get_in_keys in Hk.
    rewrite Forall_forall in Hlt. apply Hlt; exact Hk. }
  assert (Hafter : forall d v kr, fst (fetch_loop start t ks) = Some (d, v, kr) -> key < kr).
  { intros d v kr Hr. apply fetch_loop_result_key in Hr.
    rewrite Forall_forall in Hlt. apply Hlt; exact Hr. }
  assert (Hold : fst (BMap.remove t (data e)) = BMap.get t (data e))
    by (apply BMapFacts.remove_old; exact Hde).
  destruct (in_range start key) eqn:Hin.
  - destruct (BMap.remove t (data e)) as [[v|] d'] eqn:Hrm; simpl in Hold.
    + destruct (dtor e) as [d|] eqn:Hdt.
      * split.
        -- intros k x Hk. destruct (Z.eq_dec k key) as [->|Hne].
           ++ rewrite get_cons_same in Hk |- *. injection Hk as <-.
              unfold scan_entry, scanned. rewrite Hin, Z.leb_refl, Hrm, Hdt. reflexivity.
           ++ rewrite get_cons_other in Hk |- * by exact Hne.
              pose proof (Habove k x Hk) as Hlt'.
              unfold scanned.
              replace (Z.leb k key) with false by (symmetry; apply Z.leb_gt; lia).
              rewrite andb_false_r, scan_entry_false. exact Hk.
        -- split; [exact Hin|]. split.
           ++ exists e. rewrite get_cons_same. auto.
           ++ intros k x Hk _ Hkl. destruct (Z.eq_dec k key) as [->|Hne]; [lia|].
              rewrite get_cons_other in Hk by exact Hne.
              pose proof (Habove k x Hk). lia.
      * destruct (fetch_loop start t ks) as [r ks''] eqn:Hf. simpl in Hafter.
        destruct IH as [IH1 IH2]. split.
        -- intros k x Hk. destruct (Z.eq_dec k key) as [->|Hne].
           ++ rewrite get_cons_same in Hk |- *. injection Hk as <-.
              unfold scan_entry, scanned. rewrite Hin, Hrm, Hdt. simpl.
              destruct r as [[[d v'] kr]|]; [|reflexivity].
              pose proof (Hafter d v' kr eq_refl).
              replace (Z.leb key kr) with true by (symmetry; apply Z.leb_le; lia).
              reflexivity.
           ++ rewrite get_cons_other in Hk |- * by exact Hne. apply IH1; exact Hk.
        -- destruct r as [[[d v'] kr]|].
           ++ destruct IH2 as [Hr1 [[x [Hx1 Hx2]] Hr3]].
              pose proof (Hafter d v' kr eq_refl).
              split; [exact Hr1|]. split.
              ** exists x. rewrite get_cons_other by lia. auto.
              ** intros k y Hk Hk2 Hk3. destruct (Z.eq_dec k key) as [->|Hne].
                 { rewrite get_cons_same in Hk. injection Hk as <-. left; exact Hdt. }
                 rewrite get_cons_other in Hk by exact Hne. eapply Hr3; eauto.
           ++ intros k y Hk Hk2. destruct (Z.eq_dec k key) as [->|Hne].
              { rewrite get_cons_same in Hk. injection Hk as <-. left; exact Hdt. }
              rewrite get_cons_other in Hk by exact Hne. eapply IH2; eauto.
    + destruct (fetch_loop start t ks) as [r ks''] eqn:Hf. simpl in Hafter.
      destruct IH as [IH1 IH2]. split.
      * intros k x Hk. destruct (Z.eq_dec k key) as [->|Hne].
        -- rewrite get_cons_same in Hk |- *. injection Hk as <-.
           rewrite scan_entry_absent by (rewrite Hrm; reflexivity). reflexivity.
        -- rewrite get_cons_other in Hk |- * by exact Hne. apply IH1; exact Hk.
      * destruct r as [[[d v'] kr]|].
        -- destruct IH2 as [Hr1 [[x [Hx1 Hx2]] Hr3]].
           pose proof (Hafter d v' kr eq_refl).
           split; [exact Hr1|]. split.
           ++ exists x. rewrite get_cons_other by lia. auto.
           ++ intros k y Hk Hk2 Hk3. destruct (Z.eq_dec k key) as [->|Hne].
              { rewrite get_cons_same in Hk. injection Hk as <-. right; symmetry; exact Hold. }
              rewrite get_cons_other in Hk by exact Hne. eapply Hr3; eauto.
        -- intros k y Hk Hk2. destruct (Z.eq_dec k key) as [->|Hne].
           { rewrite get_cons_same in Hk. injection Hk as <-. right; symmetry; exact Hold. }
           rewrite get_cons_other in Hk by exact Hne. eapply IH2; eauto.
  - destruct (fetch_loop start t ks) as [r ks''] eqn:Hf. simpl in Hafter.
    destruct IH as [IH1 IH2]. split.
    + intros k x Hk. destruct (Z.eq_dec k key) as [->|Hne].
      * rewrite get_cons_same in Hk |- *. injection Hk as <-.
        unfold scanned. rewrite Hin. simpl. rewrite scan_entry_false. reflexivity.
      * rewrite get_cons_other in Hk |- * by exact Hne. apply IH1; exact Hk.
    + destruct r as [[[d v'] kr]|].
      * destruct IH2 as [Hr1 [[x [Hx1 Hx2]] Hr3]].
        pose proof (Hafter d v' kr eq_refl).
        split; [exact Hr1|]. split.
        -- exists x. rewrite get_cons_other by lia. auto.
        -- intros k y Hk Hk2 Hk3. destruct (Z.eq_dec k key) as [->|Hne].
           { rewrite Hin in Hk2. discriminate. }
           rewrite get_cons_other in Hk by exact Hne. eapply Hr3; eauto.
      * intros k y Hk Hk2. destruct (Z.eq_dec k key) as [->|Hne].
        { rewrite Hin in Hk2. discriminate. }
        rewrite get_cons_other in Hk by exact Hne. eapply IH2; eauto.
Qed.

(** ** The three-key scenario, evaluated *)

Lemma scenario_eq (t : ThreadId) (d1 d3 : Instance) (v1 v2 v3 : Scalar) :
  scenario t d1 d3 v1 v2 v3 =
  mkTlsData 4
    [(1, mkTlsEntry [(t, v1)] (Some d1));
     (2, mkTlsEntry [(t, v2)] None);
     (3, mkTlsEntry [(t, v3)] (Some d3))] [] [].
Proof. reflexivity. Qed.

(** Unfold one more round of the drivers and of [fetch_tls_dtor]. *)
Ltac step_drivers :=
  unfold fetch_tls_dtor, call_function, set_keys, set_tls, set_dtors_running, hs_insert, contains;
  simpl; rewrite ?Z.compare_refl, ?Z.eqb_refl, ?Nat.eqb_refl.

(** ** The destructor loop against the specification's loop *)
Section LoopRefinement.

Variable thread : ThreadId.
Variable exec : Instance -> list Scalar -> TlsData -> InterpResult TlsData.

Lemma set_tls_twice (m : Machine) (st1 st2 : TlsData) : set_tls (set_tls m st1) st2 = set_tls m st2.
Proof. reflexivity. Qed.

Lemma spec_loop_S (fuel : nat) (m : Machine) (lastKey : option TlsKey) :
  spec_loop thread exec (S fuel) m lastKey =
  let (r, st) := fetch_tls_dtor (tls m) lastKey thread in
  spec_continue thread exec fuel (set_tls m st) lastKey r.
Proof. reflexivity. Qed.

Lemma spec_loop_mono (fuel fuel' : nat) (m : Machine) (lastKey : option TlsKey) res :
  (fuel <= fuel')%nat -> spec_loop thread exec fuel m lastKey = Some res ->
  spec_loop thread exec fuel' m lastKey = Some res.
Proof.
  revert fuel' m lastKey. induction fuel as [|fuel IH]; intros fuel' m lastKey Hle H; [discriminate|].
  destruct fuel' as [|fuel']; [lia|].
  rewrite spec_loop_S in H |- *. destruct (fetch_tls_dtor (tls m) lastKey thread) as [r st].
  unfold spec_continue in H |- *.
  destruct r as [[[d v] k]|].
  - destruct (is_null v); [exact H|].
    destruct (call_function exec (set_tls m st) d [v]); [|exact H].
    apply IH; [lia|exact H].
  - destruct lastKey; [|exact H]. apply IH; [lia|exact H].
Qed.

Lemma spec_continue_mono (fuel fuel' : nat) (m : Machine) (lastKey : option TlsKey) r res :
  (fuel <= fuel')%nat -> spec_continue thread exec fuel m lastKey r = Some res ->
  spec_continue thread exec fuel' m lastKey r = Some res.
Proof.
  intros Hle. unfold spec_continue. destruct r as [[[d v] k]|].
  - destruct (is_null v); [auto|].
    destruct (call_function exec m d [v]); [|auto]. apply spec_loop_mono; exact Hle.
  - destruct lastKey; [|auto]. apply spec_loop_mono; exact Hle.
Qed.

Lemma dtor_loop_mono (fuel fuel' : nat) (m : Machine) r res :
  (fuel <= fuel')%nat -> dtor_loop exec fuel thread m r = Some res ->
  dtor_loop exec fuel' thread m r = Some res.
Proof.
  revert fuel' m r. induction fuel as [|fuel IH]; intros fuel' m r Hle H.
  - destruct r as [[[d v] k]|]; [discriminate|]. destruct fuel'; exact H.
  - destruct r as [[[d v] k]|]; [|destruct fuel'; exact H].
    destruct fuel' as [|fuel']; [lia|]. simpl in H |- *.
    destruct (is_null v); [exact H|].
    destruct (call_function exec m d [v]) as [m1|e]; [|exact H].
    destruct (fetch_tls_dtor (tls m1) (Some k) thread) as [[r1|] st1].
    + apply IH; [lia|exact H].
    + destruct (fetch_tls_dtor st1 None thread) as [r2 st2]. apply IH; [lia|exact H].
Qed.

(** Every run of the code's loop is a run of the specification's loop. *)
Lemma dtor_loop_to_spec (fuel : nat) : forall (m : Machine) r (lastKey : option TlsKey) res,
  (r <> None \/ lastKey = None) ->
  dtor_loop exec fuel thread m r = Some res ->
  spec_continue thread exec (2 * fuel)%nat m lastKey r = Some res.
Proof.
  induction fuel as [|fuel IH]; intros m r lastKey res Hr H.
  - destruct r as [[[d v] k]|]; [discriminate|].
    destruct Hr as [Hr| ->]; [congruence|exact H].
  - destruct r as [[[d v] k]|].
    2:{ destruct Hr as [Hr| ->]; [congruence|exact H]. }
    simpl in H. unfold spec_continue.
    destruct (is_null v); [exact H|].
    destruct (call_function exec m d [v]) as [m1|e]; [|exact H].
    replace (2 * S fuel)%nat with (S (S (2 * fuel))) by lia.
    rewrite spec_loop_S.
    destruct (fetch_tls_dtor (tls m1) (Some k) thread) as [[r1|] st1] eqn:Hf1.
    + apply spec_continue_mono with (fuel := (2 * fuel)%nat); [lia|].
      apply IH; [left; discriminate|exact H].
    + unfold spec_continue at 1. rewrite spec_loop_S. simpl.
      destruct (fetch_tls_dtor st1 None thread) as [r2 st2] eqn:Hf2.
      rewrite set_tls_twice. apply IH; [right; reflexivity|exact H].
Qed.

(** Every run of the specification's loop is a run of the code's loop. *)
Lemma spec_to_dtor_loop (fuel : nat) : forall (m : Machine) r (lastKey : option TlsKey) res,
  (r <> None \/ lastKey = None) ->
  spec_continue thread exec fuel m lastKey r = Some res ->
  dtor_loop exec (S fuel) thread m r = Some res.
Proof.
  induction fuel as [fuel IH] using (well_founded_induction lt_wf).
  intros m r lastKey res Hr H.
  destruct r as [[[d v] k]|].
  2:{ destruct Hr as [Hr| ->]; [congruence|exact H]. }
  unfold spec_continue in H. simpl.
  destruct (is_null v); [exact H|].
  destruct (call_function exec m d [v]) as [m1|e]; [|exact H].
  destruct fuel as [|fuel]; [discriminate|].
  rewrite spec_loop_S in H.
  destruct (fetch_tls_dtor (tls m1) (Some k) thread) as [[r1|] st1] eqn:Hf1.
  - apply (IH fuel) with (lastKey := Some k); [lia|left; discriminate|exact H].
  - unfold spec_continue in H.
    destruct fuel as [|fuel]; [discriminate|].
    rewrite spec_loop_S in H. simpl in H.
    destruct (fetch_tls_dtor st1 None thread) as [r2 st2] eqn:Hf2.
    rewrite set_tls_twice in H.
    apply dtor_loop_mono with (fuel := S fuel); [lia|].
    apply (IH fuel) with (lastKey := None); [lia|right; reflexivity|exact H].
Qed.

End LoopRefinement.

Lemma drain_tail_refines (thread : ThreadId) (has_terminated : ThreadId -> bool)
    (exec : Instance -> list Scalar -> TlsData -> InterpResult TlsData) (m : Machine) res :
  (exists fuel,
     (if negb (has_terminated thread)
      then Some (Err (Panic "running TLS dtors for non-terminated thread"))
      else let (r, st) := fetch_tls_dtor (tls m) None thread in
           dtor_loop exec fuel thread (set_tls m st) r) = Some res) <->
  (exists fuel,
     (if negb (has_terminated thread)
      then Some (Err (Panic "running TLS dtors for non-terminated thread"))
      else spec_loop thread exec fuel m None) = Some res).
Proof.
  destruct (negb (has_terminated thread)).
  { split; intros [_ H]; exists O; exact H. }
  split.
  - intros [fuel H]. exists (S (2 * fuel)). rewrite spec_loop_S.
    destruct (fetch_tls_dtor (tls m) None thread) as [r st].
    apply dtor_loop_to_spec; [right; reflexivity|exact H].
  - intros [[|fuel] H]; [discriminate|]. exists (S fuel).
    rewrite spec_loop_S in H.
    destruct (fetch_tls_dtor (tls m) None thread) as [r st].
    apply spec_to_dtor_loop with (lastKey := None); [right; reflexivity|exact H].
Qed.

(** ** The session invariant is kept by every call *)

Lemma tls_inv_intro (st : TlsData) :
  BMap.sorted (keys st) -> Forall (fun p => BMap.sorted (data (snd p))) (keys st) ->
  BMap.sorted (global_dtors st) -> 1 <= next_key st <= u128_max ->
  Forall (fun k => 1 <= k < next_key st) (map fst (keys st)) -> tls_inv st.
Proof. intros H1 H2 H3 H4 H5. exact (conj (conj H1 (conj H2 H3)) (conj H4 H5)). Qed.

Lemma fetch_loop_data_sorted (start : option TlsKey) (t : ThreadId) (ks : BMap.t TlsEntry) :
  Forall (fun p => BMap.sorted (data (snd p))) ks ->
  Forall (fun p => BMap.sorted (data (snd p))) (snd (fetch_loop start t ks)).
Proof.
  induction ks as [|[key e] ks IH]; simpl; intros Hf; [constructor|].
  inversion Hf as [|? ? He Hks]; subst. simpl in He.
  assert (Hrm : BMap.sorted (snd (BMap.remove t (data e))))
    by (apply BMapFacts.remove_sorted; exact He).
  destruct (in_range start key);
    [destruct (BMap.remove t (data e)) as [[v|] d'] eqn:Hr;
     [destruct (dtor e)|]|];
    simpl in *;
    try (constructor; [simpl; exact Hrm|exact Hks]);
    destruct (fetch_loop start t ks) as [r ks'']; simpl in *;
    constructor; try exact He; try exact Hrm; apply IH; exact Hks.
Qed.

Lemma create_tls_key_inv (st : TlsData) (d : option Instance) (s : Size) :
  tls_inv st ->
  let (r, st') := create_tls_key st d s in
  tls_inv st' /\ next_key st <= next_key st' /\
  (forall k, r = Ok k -> k = next_key st /\ next_key st' = k + 1).
Proof.
  intros (Hwf & Hn & Hk). destruct Hwf as (Hs & Hd & Hg).
  unfold create_tls_key.
  destruct (Z.ltb_spec u128_max (next_key st + 1)) as [Hov|Hov].
  { split; [apply tls_inv_intro; assumption|]. split; [lia|]. intros k Hr; discriminate. }
  assert (Hfresh : BMap.get (next_key st) (keys st) = None).
  { apply BMapFacts.get_absent. eapply Forall_impl; [|exact Hk]. simpl. lia. }
  pose proof (BMapFacts.insert_old (next_key st) (mkTlsEntry BMap.empty d) (keys st) Hs) as Hold.
  pose proof (BMapFacts.insert_sorted (next_key st) (mkTlsEntry BMap.empty d) (keys st) Hs) as Hs'.
  pose proof (BMapFacts.insert_forall (fun p => BMap.sorted (data (snd p))) (next_key st)
                (mkTlsEntry BMap.empty d) (keys st)) as Hd'.
  pose proof (BMapFacts.insert_keys (next_key st) (mkTlsEntry BMap.empty d) (keys st)
                (fun k => 1 <= k < next_key st + 1)) as Hk'.
  simpl in *.
  destruct (BMap.insert (next_key st) (mkTlsEntry BMap.empty d) (keys st)) as [old ks] eqn:Hi.
  simpl in *. rewrite Hfresh in Hold. subst old.
  assert (Hinv : tls_inv (set_keys (set_next_key st (next_key st + 1)) ks)).
  { unfold tls_inv, tls_wf. simpl. split; [split; [exact Hs'|split; [|exact Hg]]|split; [lia|]].
    - apply Hd'; [constructor|exact Hd].
    - apply Hk'; [lia|]. eapply Forall_impl; [|exact Hk]. simpl. lia. }
  destruct (Z.ltb (bits s) 128 && Z.leb (Z.shiftl 1 (bits s)) (next_key st)).
  - split; [exact Hinv|]. split; [simpl; lia|]. intros k Hr; discriminate.
  - split; [exact Hinv|]. split; [simpl; lia|]. intros k Hr. injection Hr as <-. simpl. lia.
Qed.

Lemma delete_tls_key_inv (st : TlsData) (key : TlsKey) :
  tls_inv st -> tls_inv (snd (delete_tls_key st key)) /\ next_key (snd (delete_tls_key st key)) = next_key st.
Proof.
  intros (Hwf & Hn & Hk). destruct Hwf as (Hs & Hd & Hg).
  unfold delete_tls_key.
  pose proof (BMapFacts.remove_sorted key (keys st) Hs) as Hs'.
  pose proof (BMapFacts.remove_forall _ key (keys st) Hd) as Hd'.
  pose proof (BMapFacts.remove_keys key (keys st) _ Hk) as Hk'.
  destruct (BMap.remove key (keys st)) as [[e|] ks]; simpl in *.
  - split; [|reflexivity]. apply tls_inv_intro; assumption.
  - split; [|reflexivity]. apply tls_inv_intro; assumption.
Qed.

Lemma store_tls_inv (st : TlsData) (key : TlsKey) (t : ThreadId) (v : option Scalar) :
  tls_inv st -> tls_inv (snd (store_tls st key t v)) /\ next_key (snd (store_tls st key t v)) = next_key st.
Proof.
  intros (Hwf & Hn & Hk). destruct Hwf as (Hs & Hd & Hg).
  unfold store_tls. destruct (BMap.get key (keys st)) as [e|] eqn:He; simpl.
  2:{ split; [apply tls_inv_intro; assumption|reflexivity]. }
  split; [|reflexivity].
  pose proof (BMapFacts.get_forall _ key e (keys st) Hd He) as Hde. simpl in Hde.
  pose proof (BMapFacts.get_forall (fun p => 1 <= fst p < next_key st) key e (keys st)) as Hkey.
  assert (Hk2 : Forall (fun p => 1 <= fst p < next_key st) (keys st)).
  { apply Forall_map in Hk. exact Hk. }
  specialize (Hkey Hk2 He). simpl in Hkey.
  unfold tls_inv, tls_wf. simpl. split; [split; [|split]|split].
  - apply BMapFacts.insert_sorted; exact Hs.
  - apply BMapFacts.insert_forall; [|exact Hd]. simpl.
    destruct v; [apply BMapFacts.insert_sorted|apply BMapFacts.remove_sorted]; exact Hde.
  - exact Hg.
  - exact Hn.
  - apply BMapFacts.insert_keys; [exact Hkey|exact Hk].
Qed.

Lemma set_global_dtor_inv (st : TlsData) (t : ThreadId) (d : Instance) (a : Scalar) :
  tls_inv st -> tls_inv (snd (set_global_dtor st t d a)) /\
  next_key (snd (set_global_dtor st t d a)) = next_key st.
Proof.
  intros (Hwf & Hn & Hk). destruct Hwf as (Hs & Hd & Hg).
  unfold set_global_dtor. destruct (contains (dtors_running st) t).
  { simpl. split; [apply tls_inv_intro; assumption|reflexivity]. }
  pose proof (BMapFacts.insert_sorted t (d, a) (global_dtors st) Hg) as Hg'.
  destruct (BMap.insert t (d, a) (global_dtors st)) as [[old|] g]; simpl in *;
    (split; [apply tls_inv_intro; assumption|reflexivity]).
Qed.

Lemma fetch_tls_dtor_inv (st : TlsData) (k : option TlsKey) (t : ThreadId) :
  tls_inv st -> tls_inv (snd (fetch_tls_dtor st k t)) /\
  next_key (snd (fetch_tls_dtor st k t)) = next_key st.
Proof.
  intros (Hwf & Hn & Hk). destruct Hwf as (Hs & Hd & Hg).
  unfold fetch_tls_dtor.
  pose proof (fetch_loop_keys k t (keys st)) as Hkeys.
  pose proof (fetch_loop_data_sorted k t (keys st) Hd) as Hd'.
  destruct (fetch_loop k t (keys st)) as [r ks]. simpl in *.
  split; [|reflexivity].
  apply tls_inv_intro; unfold BMap.sorted in *; simpl; try rewrite Hkeys; assumption.
Qed.

Lemma op_step_inv (st : TlsData) (op : Op) :
  tls_inv st ->
  let (r, st') := op_step st op in
  tls_inv st' /\ next_key st <= next_key st' /\
  (forall k, r = Ok (Some k) -> k = next_key st /\ next_key st' = k + 1).
Proof.
  intros Hinv. destruct op as [d s|key|key t|key t v|t d a|k t]; simpl.
  - pose proof (create_tls_key_inv st d s Hinv) as H.
    destruct (create_tls_key st d s) as [[k|e] st'].
    + destruct H as (H1 & H2 & H3). split; [exact H1|]. split; [exact H2|].
      intros k' Hk'. injection Hk' as <-. apply H3; reflexivity.
    + destruct H as (H1 & H2 & _). split; [exact H1|]. split; [exact H2|]. intros ? Hc; discriminate Hc.
  - pose proof (delete_tls_key_inv st key Hinv) as [H1 H2].
    destruct (delete_tls_key st key) as [[[]|e] st']; simpl in *;
      (split; [exact H1|split; [lia|intros ? Hc; discriminate Hc]]).
  - destruct (load_tls st key t); (split; [exact Hinv|split; [lia|intros ? Hc; discriminate Hc]]).
  - pose proof (store_tls_inv st key t v Hinv) as [H1 H2].
    destruct (store_tls st key t v) as [[[]|e] st']; simpl in *;
      (split; [exact H1|split; [lia|intros ? Hc; discriminate Hc]]).
  - pose proof (set_global_dtor_inv st t d a Hinv) as [H1 H2].
    destruct (set_global_dtor st t d a) as [[[]|e] st']; simpl in *;
      (split; [exact H1|split; [lia|intros ? Hc; discriminate Hc]]).
  - pose proof (fetch_tls_dtor_inv st k t Hinv) as [H1 H2].
    split; [exact H1|split; [lia|intros ? Hc; discriminate Hc]].
Qed.

Lemma run_ops_inv (ops : list Op) : forall st : TlsData,
  tls_inv st ->
  let (ks, st') := run_ops st ops in
  StronglySorted Z.lt ks /\ Forall (fun k => next_key st <= k < next_key st') ks /\
  next_key st <= next_key st' /\ tls_inv st'.
Proof.
  induction ops as [|op ops IH]; intros st Hinv; simpl.
  { split; [constructor|]. split; [constructor|]. split; [lia|exact Hinv]. }
  pose proof (op_step_inv st op Hinv) as Hop.
  destruct (op_step st op) as [[r|e] st1].
  - destruct Hop as (Hinv1 & Hle1 & Hk1).
    specialize (IH st1 Hinv1).
    destruct (run_ops st1 ops) as [ks st2].
    destruct IH as (Hsort & Hall & Hle2 & Hinv2).
    destruct r as [k|].
    + destruct (Hk1 k eq_refl) as [-> Hnext].
      split; [constructor; [exact Hsort|]|split; [constructor|split; [lia|exact Hinv2]]].
      * eapply Forall_impl; [|exact Hall]. simpl. lia.
      * lia.
      * eapply Forall_impl; [|exact Hall]. simpl. lia.
    + split; [exact Hsort|]. split; [|split; [lia|exact Hinv2]].
      eapply Forall_impl; [|exact Hall]. simpl. lia.
  - destruct Hop as (Hinv1 & Hle1 & _).
    split; [constructor|]. split; [constructor|]. split; [exact Hle1|exact Hinv1].
Qed.

(** * Claims *)

(** C1: [fetch_tls_dtor lastKey t] scans the registry in ascending key
    order from just after [lastKey] (from the smallest key when [lastKey] is
    [None]).  Every scanned key has the value of [t] taken out; it returns
    [(dtor, value, key)] at the first key that has both a value for [t] and a
    destructor, and [None] when no key after [lastKey] has both.  No key is
    added or removed, no destructor and no other thread's value changes, and
    the rest of [TlsData] is untouched. *)
Theorem fetch_tls_dtor_scan (st : TlsData) (lastKey : option TlsKey) (t : ThreadId) :
  tls_wf st ->
  let (r, st') := fetch_tls_dtor st lastKey t in
  next_key st' = next_key st /\ global_dtors st' = global_dtors st /\
  dtors_running st' = dtors_running st /\
  map fst (keys st') = map fst (keys st) /\
  (forall k e, BMap.get k (keys st) = Some e ->
     BMap.get k (keys st') = Some (scan_entry t (scanned lastKey r k) e)) /\
  match r with
  | Some (d, v, kr) =>
      in_range lastKey kr = true /\
      (exists e, BMap.get kr (keys st) = Some e /\ dtor e = Some d /\ BMap.get t (data e) = Some v) /\
      (forall k e, BMap.get k (keys st) = Some e -> in_range lastKey k = true -> k < kr ->
         no_dtor_to_run t e)
  | None =>
      forall k e, BMap.get k (keys st) = Some e -> in_range lastKey k = true -> no_dtor_to_run t e
  end.
Proof.
  intros [Hs [Hd _]]. unfold fetch_tls_dtor.
  pose proof (fetch_loop_spec lastKey t (keys st) Hs Hd) as Hspec.
  pose proof (fetch_loop_keys lastKey t (keys st)) as Hkeys.
  destruct (fetch_loop lastKey t (keys st)) as [r ks'].
  simpl in Hkeys |- *. destruct Hspec as [H1 H2].
  repeat split; auto.
Qed.

Lemma fetch_tls_dtor_scan_witness :
  tls_wf (scenario 0 10%nat 30%nat (Raw 11) (Raw 22) (Raw 33)) /\
  (let (r, st') := fetch_tls_dtor (scenario 0 10%nat 30%nat (Raw 11) (Raw 22) (Raw 33)) (Some 1) 0 in
   next_key st' = next_key (scenario 0 10%nat 30%nat (Raw 11) (Raw 22) (Raw 33)) /\
   global_dtors st' = global_dtors (scenario 0 10%nat 30%nat (Raw 11) (Raw 22) (Raw 33)) /\
   dtors_running st' = dtors_running (scenario 0 10%nat 30%nat (Raw 11) (Raw 22) (Raw 33)) /\
   map fst (keys st') = map fst (keys (scenario 0 10%nat 30%nat (Raw 11) (Raw 22) (Raw 33))) /\
   (forall k e, BMap.get k (keys (scenario 0 10%nat 30%nat (Raw 11) (Raw 22) (Raw 33))) = Some e ->
      BMap.get k (keys st') = Some (scan_entry 0 (scanned (Some 1) r k) e)) /\
   match r with
   | Some (d, v, kr) =>
       in_range (Some 1) kr = true /\
       (exists e, BMap.get kr (keys (scenario 0 10%nat 30%nat (Raw 11) (Raw 22) (Raw 33))) = Some e /\
          dtor e = Some d /\ BMap.get 0 (data e) = Some v) /\
       (forall k e, BMap.get k (keys (scenario 0 10%nat 30%nat (Raw 11) (Raw 22) (Raw 33))) = Some e ->
          in_range (Some 1) k = true -> k < kr -> no_dtor_to_run 0 e)
   | None =>
       forall k e, BMap.get k (keys (scenario 0 10%nat 30%nat (Raw 11) (Raw 22) (Raw 33))) = Some e ->
         in_range (Some 1) k = true -> no_dtor_to_run 0 e
   end).
Proof.
  assert (Hwf : tls_wf (scenario 0 10%nat 30%nat (Raw 11) (Raw 22) (Raw 33))).
  { vm_compute. repeat (constructor || reflexivity). }
  split; [exact Hwf|]. apply (fetch_tls_dtor_scan _ (Some 1) 0 Hwf).
Defined.

(** C2 (as corrected): for keys A (destructor [d1], value [v1]), B (no
    destructor, value [v2]) and C (destructor [d3], value [v3]) created in
    that order for thread [t], draining [t] calls exactly [d1 v1] and then
    [d3 v3], and leaves B without a value.  When [d1] stores [v2'] under B,
    draining still makes exactly those two calls; [v2'] is taken, silently,
    by the scan that resumes after A (the one that then returns [d3]), and
    the scans after C and from the beginning find nothing. *)
Theorem scenario_drain (os : string) (has_terminated : ThreadId -> bool) (t : ThreadId)
    (d1 d3 : Instance) (v1 v2 v3 v2' : Scalar) :
  os <> "windows"%string -> has_terminated t = true ->
  is_null v1 = false -> is_null v3 = false -> d1 <> d3 ->
  (exists m', run_tls_dtors_for_active_thread os t has_terminated exec_noop 2
                (mkMachine (scenario t d1 d3 v1 v2 v3) []) = Some (Ok m') /\
              calls m' = [(d1, [v1]); (d3, [v3])] /\ load_tls (tls m') 2 t = Ok null_ptr) /\
  (exists m', run_tls_dtors_for_active_thread os t has_terminated (exec_store_b t d1 v2') 2
                (mkMachine (scenario t d1 d3 v1 v2 v3) []) = Some (Ok m') /\
              calls m' = [(d1, [v1]); (d3, [v3])] /\ load_tls (tls m') 2 t = Ok null_ptr) /\
  (let st0 := set_dtors_running (scenario t d1 d3 v1 v2 v3) [t] in
   let st1 := snd (store_tls (snd (fetch_tls_dtor st0 None t)) 2 t (Some v2')) in
   let (r, st2) := fetch_tls_dtor st1 (Some 1) t in
   r = Some (d3, v3, 3) /\ load_tls st2 2 t = Ok null_ptr /\
   fetch_tls_dtor st2 (Some 3) t = (None, st2) /\
   fetch_tls_dtor st2 None t = (None, st2)).
Proof.
  intros Hos Ht Hv1 Hv3 Hd.
  apply Nat.eqb_neq in Hd. rewrite Nat.eqb_sym in Hd.
  apply String.eqb_neq in Hos.
  split; [|split].
  - unfold run_tls_dtors_for_active_thread, exec_noop. rewrite Hos, scenario_eq.
    repeat progress (step_drivers; rewrite ?Ht, ?Hv1, ?Hv3).
    eexists; split; [reflexivity|]. split; reflexivity.
  - unfold run_tls_dtors_for_active_thread, exec_store_b, store_tls. rewrite Hos, scenario_eq.
    repeat progress (step_drivers; rewrite ?Ht, ?Hv1, ?Hv3, ?Hd).
    eexists; split; [reflexivity|]. split; reflexivity.
  - cbv zeta. rewrite scenario_eq. unfold store_tls.
    repeat progress step_drivers.
    repeat split.
Qed.

Lemma scenario_drain_witness :
  ("linux" <> "windows")%string /\ (fun _ : ThreadId => true) 0 = true /\
  is_null (Raw 11) = false /\ is_null (Raw 33) = false /\ 10%nat <> 30%nat /\
  (exists m', run_tls_dtors_for_active_thread "linux" 0 (fun _ => true) exec_noop 2
                (mkMachine (scenario 0 10%nat 30%nat (Raw 11) (Raw 22) (Raw 33)) []) = Some (Ok m') /\
              calls m' = [(10%nat, [Raw 11]); (30%nat, [Raw 33])] /\
              load_tls (tls m') 2 0 = Ok null_ptr).
Proof.
  split; [discriminate|]. split; [reflexivity|]. split; [reflexivity|].
  split; [reflexivity|]. split; [discriminate|].
  apply (scenario_drain "linux" (fun _ => true) 0 10%nat 30%nat (Raw 11) (Raw 22) (Raw 33) (Raw 222));
    (discriminate || reflexivity).
Defined.

(** C2, counterexample: with [d1 = 10] storing [Raw 222] under B, B's fresh
    value is not found on the restart pass.  When [d3] has returned and the
    scan after C has found nothing, B holds no value for the thread any more,
    and the scan from the beginning takes nothing. *)
Lemma scenario_restart_pass_finds_nothing :
  let st0 := set_dtors_running (scenario 0 10%nat 30%nat (Raw 11) (Raw 22) (Raw 33)) [0] in
  let st1 := snd (store_tls (snd (fetch_tls_dtor st0 None 0)) 2 0 (Some (Raw 222))) in
  let st2 := snd (fetch_tls_dtor st1 (Some 1) 0) in
  fst (fetch_tls_dtor st2 (Some 3) 0) = None /\
  (forall e, BMap.get 2 (keys st2) = Some e -> BMap.get 0 (data e) = None) /\
  fetch_tls_dtor st2 None 0 = (None, st2).
Proof.
  vm_compute. split; [reflexivity|]. split; [|reflexivity].
  intros e He. injection He as <-. reflexivity.
Qed.

(** C3: on a target other than Windows, [run_tls_dtors_for_active_thread]
    is the draining procedure of the specification ([spec_drain]): the same
    outcomes, up to the fuel bounding the loop.  In [spec_drain] the global
    destructor of the thread, when there is one, is called once, before the
    per-key loop; the loop scans after the last run key, restarts from the
    beginning when that scan yields nothing, and ends exactly when a scan
    from the beginning yields nothing. *)
Theorem run_tls_dtors_refines_spec (os : string) (thread : ThreadId) (has_terminated : ThreadId -> bool)
    (exec : Instance -> list Scalar -> TlsData -> InterpResult TlsData) (m : Machine) res :
  os <> "windows"%string ->
  (exists fuel, run_tls_dtors_for_active_thread os thread has_terminated exec fuel m = Some res) <->
  (exists fuel, spec_drain thread has_terminated exec fuel m = Some res).
Proof.
  intros Hos. apply String.eqb_neq in Hos.
  unfold run_tls_dtors_for_active_thread, spec_drain. rewrite Hos.
  destruct (contains (dtors_running (tls m)) thread).
  { split; intros [_ H]; exists O; exact H. }
  destruct (BMap.get thread (global_dtors (tls (set_tls m
      (set_dtors_running (tls m) (hs_insert (dtors_running (tls m)) thread)))))) as [[g a]|].
  - destruct (call_function exec _ g [a]) as [m1|e].
    + apply drain_tail_refines.
    + split; intros [_ H]; exists O; exact H.
  - apply drain_tail_refines.
Qed.

Lemma run_tls_dtors_refines_spec_witness :
  ("linux" <> "windows")%string /\
  ((exists fuel, run_tls_dtors_for_active_thread "linux" 0 (fun _ => true) exec_noop fuel
                   (mkMachine (scenario 0 10%nat 30%nat (Raw 11) (Raw 22) (Raw 33)) []) =
                 Some (Ok (mkMachine tls_default []))) <->
   (exists fuel, spec_drain 0 (fun _ => true) exec_noop fuel
                   (mkMachine (scenario 0 10%nat 30%nat (Raw 11) (Raw 22) (Raw 33)) []) =
                 Some (Ok (mkMachine tls_default [])))).
Proof.
  split; [discriminate|]. apply run_tls_dtors_refines_spec. discriminate.
Defined.

(** C4, counterexample: when thread 0 already has the global destructor
    [(5, Raw 1)], [set_global_dtor] for [(6, Raw 2)] fails with the
    unsupported error, but the map has already been updated: the earlier
    pair is replaced by the new one. *)
Lemma set_global_dtor_replaces_before_error :
  let st := set_global_dtors tls_default [(0, (5%nat, Raw 1))] in
  let (r, st') := set_global_dtor st 0 6%nat (Raw 2) in
  (exists msg, r = Err (Unsup msg)) /\ BMap.get 0 (global_dtors st') = Some (6%nat, Raw 2).
Proof. simpl. split; [eexists; reflexivity|reflexivity]. Qed.

(** C4 (as corrected): [set_global_dtor st t d a] fails with UB, changing
    nothing, when [t] is in the dtors-running set.  Otherwise it installs
    [(d, a)] for [t] (replacing any pair already there, other threads
    untouched) and then fails with the unsupported error exactly when a pair
    for [t] was already installed, succeeding otherwise. *)
Theorem set_global_dtor_spec (st : TlsData) (t : ThreadId) (d : Instance) (a : Scalar) :
  BMap.sorted (global_dtors st) ->
  let (r, st') := set_global_dtor st t d a in
  if contains (dtors_running st) t
  then (exists msg, r = Err (Ub msg)) /\ st' = st
  else
    BMap.get t (global_dtors st') = Some (d, a) /\
    (forall t', t' <> t -> BMap.get t' (global_dtors st') = BMap.get t' (global_dtors st)) /\
    next_key st' = next_key st /\ keys st' = keys st /\ dtors_running st' = dtors_running st /\
    match BMap.get t (global_dtors st) with
    | Some _ => exists msg, r = Err (Unsup msg)
    | None => r = Ok tt
    end.
Proof.
  intros Hs. unfold set_global_dtor.
  destruct (contains (dtors_running st) t).
  { split; [eexists; reflexivity|reflexivity]. }
  pose proof (BMapFacts.insert_old t (d, a) (global_dtors st) Hs) as Hold.
  pose proof (BMapFacts.get_insert_same t (d, a) (global_dtors st)) as Hsame.
  assert (Hoth : forall t', t' <> t ->
            BMap.get t' (snd (BMap.insert t (d, a) (global_dtors st))) = BMap.get t' (global_dtors st))
    by (intros t' Hne; apply BMapFacts.get_insert_other; exact Hne).
  destruct (BMap.insert t (d, a) (global_dtors st)) as [old g] eqn:Hi. simpl in *.
  rewrite <- Hold.
  destruct old; simpl; (split; [exact Hsame|split; [exact Hoth|repeat split]]).
  eexists; reflexivity.
Qed.

Lemma set_global_dtor_spec_witness :
  BMap.sorted (global_dtors (set_global_dtors tls_default [(0, (5%nat, Raw 1))])) /\
  (let (r, st') := set_global_dtor (set_global_dtors tls_default [(0, (5%nat, Raw 1))]) 0 6%nat (Raw 2) in
   if contains (dtors_running (set_global_dtors tls_default [(0, (5%nat, Raw 1))])) 0
   then (exists msg, r = Err (Ub msg)) /\ st' = set_global_dtors tls_default [(0, (5%nat, Raw 1))]
   else
     BMap.get 0 (global_dtors st') = Some (6%nat, Raw 2) /\
     (forall t', t' <> 0 -> BMap.get t' (global_dtors st') =
                             BMap.get t' (global_dtors (set_global_dtors tls_default [(0, (5%nat, Raw 1))]))) /\
     next_key st' = next_key (set_global_dtors tls_default [(0, (5%nat, Raw 1))]) /\
     keys st' = keys (set_global_dtors tls_default [(0, (5%nat, Raw 1))]) /\
     dtors_running st' = dtors_running (set_global_dtors tls_default [(0, (5%nat, Raw 1))]) /\
     match BMap.get 0 (global_dtors (set_global_dtors tls_default [(0, (5%nat, Raw 1))])) with
     | Some _ => exists msg, r = Err (Unsup msg)
     | None => r = Ok tt
     end).
Proof.
  assert (Hs : BMap.sorted (global_dtors (set_global_dtors tls_default [(0, (5%nat, Raw 1))]))).
  { vm_compute. repeat constructor. }
  split; [exact Hs|]. apply (set_global_dtor_spec _ 0 6%nat (Raw 2) Hs).
Defined.

(** C5, counterexample: a [Size] counts whole bytes, so its bit width is a
    multiple of 8 and never 2; the size made from 2 bits ([Size::from_bits])
    is one byte, 8 bits, and the fourth allocation from a fresh registry
    succeeds, returning key 4. *)
Lemma two_bit_size_allocates_fourth_key :
  (forall s : Size, bits s <> 2) /\
  bits (from_bits 2) = 8 /\
  (let (_, st1) := create_tls_key tls_default None (from_bits 2) in
   let (_, st2) := create_tls_key st1 None (from_bits 2) in
   let (_, st3) := create_tls_key st2 None (from_bits 2) in
   fst (create_tls_key st3 None (from_bits 2)) = Ok 4).
Proof.
  split; [|split; reflexivity].
  intros [raw]. unfold bits. simpl. lia.
Qed.

(** C5 (as corrected): when the counter is a fresh key and its increment
    does not overflow the [u128], [create_tls_key] fails with the
    unsupported error (not UB) exactly when the new key is at least
    [2 ^ max_size.bits()], and returns the new key otherwise; [bits()] is
    8 times the size in bytes. *)
Theorem create_tls_key_capacity (st : TlsData) (d : option Instance) (s : Size) :
  BMap.sorted (keys st) -> BMap.get (next_key st) (keys st) = None -> next_key st + 1 <= u128_max ->
  ((exists msg, fst (create_tls_key st d s) = Err (Unsup msg)) <-> 2 ^ bits s <= next_key st) /\
  (fst (create_tls_key st d s) = Ok (next_key st) <-> next_key st < 2 ^ bits s) /\
  bits s mod 8 = 0.
Proof.
  intros Hs Hfresh Hov.
  assert (Hb : 0 <= bits s) by (unfold bits; lia).
  assert (Hm : bits s mod 8 = 0) by (unfold bits; apply Z_mod_mult).
  unfold create_tls_key.
  destruct (Z.ltb_spec u128_max (next_key st + 1)) as [H|_]; [lia|].
  pose proof (BMapFacts.insert_old (next_key st) (mkTlsEntry BMap.empty d) (keys st) Hs) as Hold.
  simpl in *. rewrite Hfresh in Hold.
  destruct (BMap.insert (next_key st) (mkTlsEntry BMap.empty d) (keys st)) as [old ks].
  simpl in Hold. subst old. rewrite Z.shiftl_1_l.
  destruct (Z.ltb_spec (bits s) 128) as [Hlt|Hge].
  - destruct (Z.leb_spec (2 ^ bits s) (next_key st)) as [Hle|Hgt]; simpl.
    + split; [split; [intros _; exact Hle|intros _; eexists; reflexivity]|].
      split; [split; [discriminate|lia]|exact Hm].
    + split; [split; [intros [msg Hc]; discriminate Hc|lia]|].
      split; [split; [intros _; exact Hgt|reflexivity]|exact Hm].
  - assert (H128 : 2 ^ 128 <= 2 ^ bits s) by (apply Z.pow_le_mono_r; lia).
    unfold u128_max in Hov. simpl.
    split; [split; [intros [msg Hc]; discriminate Hc|lia]|].
    split; [split; [intros _; lia|reflexivity]|exact Hm].
Qed.

Lemma create_tls_key_capacity_witness :
  BMap.sorted (keys tls_default) /\ BMap.get (next_key tls_default) (keys tls_default) = None /\
  next_key tls_default + 1 <= u128_max /\
  ((exists msg, fst (create_tls_key tls_default None (mkSize 1)) = Err (Unsup msg)) <->
     2 ^ bits (mkSize 1) <= next_key tls_default).
Proof.
  assert (Hs : BMap.sorted (keys tls_default)) by constructor.
  assert (Hf : BMap.get (next_key tls_default) (keys tls_default) = None) by reflexivity.
  assert (Ho : next_key tls_default + 1 <= u128_max) by (vm_compute; discriminate).
  split; [exact Hs|]. split; [exact Hf|]. split; [exact Ho|].
  apply (create_tls_key_capacity tls_default None (mkSize 1) Hs Hf Ho).
Defined.

(** C6: in a session started from [TlsData::default], the keys returned by
    [create_tls_key] are at least 1 and strictly increasing, whatever calls
    (deletions included) come between them; each is below the final counter,
    as is every registered key, so the counter is a fresh slot.  Every call
    keeps this invariant and never decreases the counter. *)
Theorem run_ops_keys_increasing (ops : list Op) :
  (let (ks, st) := run_ops tls_default ops in
   StronglySorted Z.lt ks /\ Forall (fun k => 1 <= k < next_key st) ks /\
   Forall (fun k => 1 <= k < next_key st) (map fst (keys st)) /\
   BMap.get (next_key st) (keys st) = None) /\
  (forall st op, tls_inv st ->
     tls_inv (snd (op_step st op)) /\ next_key st <= next_key (snd (op_step st op))).
Proof.
  split.
  - assert (H0 : tls_inv tls_default).
    { apply tls_inv_intro; simpl; try constructor; unfold u128_max; simpl; lia. }
    pose proof (run_ops_inv ops tls_default H0) as H.
    destruct (run_ops tls_default ops) as [ks st].
    destruct H as (Hsort & Hall & _ & Hinv).
    destruct Hinv as (_ & _ & Hk).
    split; [exact Hsort|]. split; [exact Hall|]. split; [exact Hk|].
    apply BMapFacts.get_absent. eapply Forall_impl; [|exact Hk]. simpl. lia.
  - intros st op Hinv. pose proof (op_step_inv st op Hinv) as H.
    destruct (op_step st op) as [r st']. simpl. destruct H as (H1 & H2 & _). split; assumption.
Qed.

(** C7: with the registry sorted, [delete_tls_key], [load_tls] and
    [store_tls] fail with UB on a key that is not registered (never created,
    or deleted: a successful deletion unregisters the key), and all three
    succeed on a registered key. *)
Theorem unknown_key_ub (st : TlsData) (k : TlsKey) (t : ThreadId) (v : option Scalar) :
  BMap.sorted (keys st) ->
  (BMap.get k (keys st) = None ->
     (exists msg, fst (delete_tls_key st k) = Err (Ub msg)) /\
     (exists msg, load_tls st k t = Err (Ub msg)) /\
     (exists msg, fst (store_tls st k t v) = Err (Ub msg))) /\
  (BMap.get k (keys st) <> None ->
     fst (delete_tls_key st k) = Ok tt /\ (exists x, load_tls st k t = Ok x) /\
     fst (store_tls st k t v) = Ok tt) /\
  (fst (delete_tls_key st k) = Ok tt -> BMap.get k (keys (snd (delete_tls_key st k))) = None).
Proof.
  intros Hs.
  pose proof (BMapFacts.remove_old k (keys st) Hs) as Hold.
  pose proof (BMapFacts.get_remove_same k (keys st) Hs) as Hgone.
  unfold delete_tls_key, load_tls, store_tls.
  destruct (BMap.remove k (keys st)) as [o ks] eqn:Hr. simpl in Hold, Hgone.
  split; [|split].
  - intros Hn. rewrite Hn in Hold |- *. subst o.
    split; [eexists; reflexivity|]. split; eexists; reflexivity.
  - intros Hn. destruct (BMap.get k (keys st)) as [e|] eqn:He; [|congruence].
    subst o. split; [reflexivity|]. split; [|reflexivity].
    destruct (BMap.get t (data e)); eexists; reflexivity.
  - destruct o; simpl; [intros _; exact Hgone|discriminate].
Qed.

Lemma unknown_key_ub_witness :
  BMap.sorted (keys (scenario 0 10%nat 30%nat (Raw 11) (Raw 22) (Raw 33))) /\
  (BMap.get 7 (keys (scenario 0 10%nat 30%nat (Raw 11) (Raw 22) (Raw 33))) = None ->
     (exists msg, fst (delete_tls_key (scenario 0 10%nat 30%nat (Raw 11) (Raw 22) (Raw 33)) 7) = Err (Ub msg)) /\
     (exists msg, load_tls (scenario 0 10%nat 30%nat (Raw 11) (Raw 22) (Raw 33)) 7 0 = Err (Ub msg)) /\
     (exists msg, fst (store_tls (scenario 0 10%nat 30%nat (Raw 11) (Raw 22) (Raw 33)) 7 0 None) = Err (Ub msg))).
Proof.
  assert (Hs : BMap.sorted (keys (scenario 0 10%nat 30%nat (Raw 11) (Raw 22) (Raw 33)))).
  { vm_compute. repeat (constructor || reflexivity). }
  split; [exact Hs|]. apply (unknown_key_ub _ 7 0 None Hs).
Defined.

(** C8: on a registered key of a well-formed registry, [load_tls] returns
    the null pointer (as a success) for a thread with no stored value, and
    after [store_tls key t None] it returns the null pointer too. *)
Theorem load_unset_is_null (st : TlsData) (k : TlsKey) (t : ThreadId) (e : TlsEntry) :
  tls_wf st -> BMap.get k (keys st) = Some e ->
  (BMap.get t (data e) = None -> load_tls st k t = Ok null_ptr) /\
  load_tls (snd (store_tls st k t None)) k t = Ok null_ptr.
Proof.
  intros (Hs & Hd & _) He.
  pose proof (BMapFacts.get_forall _ k e (keys st) Hd He) as Hde. simpl in Hde.
  split.
  - intros Ht. unfold load_tls. rewrite He, Ht. reflexivity.
  - unfold store_tls, load_tls. rewrite He. simpl.
    rewrite BMapFacts.get_insert_same. simpl.
    rewrite (BMapFacts.get_remove_same t (data e) Hde). reflexivity.
Qed.

Lemma load_unset_is_null_witness :
  tls_wf (scenario 0 10%nat 30%nat (Raw 11) (Raw 22) (Raw 33)) /\
  BMap.get 1 (keys (scenario 0 10%nat 30%nat (Raw 11) (Raw 22) (Raw 33))) =
    Some (mkTlsEntry [(0, Raw 11)] (Some 10%nat)) /\
  load_tls (snd (store_tls (scenario 0 10%nat 30%nat (Raw 11) (Raw 22) (Raw 33)) 1 0 None)) 1 0 = Ok null_ptr.
Proof.
  assert (Hwf : tls_wf (scenario 0 10%nat 30%nat (Raw 11) (Raw 22) (Raw 33))).
  { vm_compute. repeat (constructor || reflexivity). }
  assert (He : BMap.get 1 (keys (scenario 0 10%nat 30%nat (Raw 11) (Raw 22) (Raw 33))) =
                 Some (mkTlsEntry [(0, Raw 11)] (Some 10%nat))) by reflexivity.
  split; [exact Hwf|]. split; [exact He|].
  apply (load_unset_is_null _ 1 0 _ Hwf He).
Defined.

(** C9: on Windows, for the main thread (index 0) whose destructors have
    not started, once the callback [p_thread_callback] and the reason
    [DLL_PROCESS_DETACH] resolve, [run_windows_tls_dtors] makes exactly one
    call: the callback with the three arguments (null, reason, null).  The
    TLS state afterwards is the one the callback leaves (after marking the
    thread), whatever keys and global destructors exist: no key is scanned
    and no per-key destructor runs, and [run_tls_dtors_for_active_thread]
    does nothing on Windows. *)
Theorem windows_single_callback (has_terminated : ThreadId -> bool)
    (exec : Instance -> list Scalar -> TlsData -> InterpResult TlsData)
    (eval_path_scalar : list string -> InterpResult Scalar) (get_fn : Scalar -> InterpResult Instance)
    (m : Machine) (cb_ptr : Scalar) (cb : Instance) (reason : Scalar) (st' : TlsData) :
  eval_path_scalar ["std"; "sys"; "windows"; "thread_local"; "p_thread_callback"]%string = Ok cb_ptr ->
  get_fn cb_ptr = Ok cb ->
  eval_path_scalar ["std"; "sys"; "windows"; "c"; "DLL_PROCESS_DETACH"]%string = Ok reason ->
  contains (dtors_running (tls m)) 0 = false ->
  exec cb [null_ptr; reason; null_ptr]
       (set_dtors_running (tls m) (hs_insert (dtors_running (tls m)) 0)) = Ok st' ->
  run_windows_tls_dtors "windows" 0 exec eval_path_scalar get_fn m =
    Ok (mkMachine st' (calls m ++ [(cb, [null_ptr; reason; null_ptr])])) /\
  (forall fuel, run_tls_dtors_for_active_thread "windows" 0 has_terminated exec fuel m = Some (Ok m)).
Proof.
  intros Hcb Hfn Hreason Hrun Hexec. split; [|reflexivity].
  unfold run_windows_tls_dtors. simpl. rewrite Hrun. simpl.
  rewrite Hcb. simpl. rewrite Hfn. simpl. rewrite Hreason. simpl.
  unfold call_function. simpl. rewrite Hexec. reflexivity.
Qed.

(** A resolver for the two paths of the Windows driver. *)
Definition windows_paths (p : list string) : InterpResult Scalar :=
  if String.eqb (nth 3 p ""%string) "thread_local" then Ok (Ptr 7 0) else Ok (Raw 0).

Lemma windows_single_callback_witness :
  windows_paths ["std"; "sys"; "windows"; "thread_local"; "p_thread_callback"]%string = Ok (Ptr 7 0) /\
  (fun _ : Scalar => Ok 42%nat : InterpResult Instance) (Ptr 7 0) = Ok 42%nat /\
  windows_paths ["std"; "sys"; "windows"; "c"; "DLL_PROCESS_DETACH"]%string = Ok (Raw 0) /\
  run_windows_tls_dtors "windows" 0 exec_noop windows_paths (fun _ => Ok 42%nat)
    (mkMachine (scenario 0 10%nat 30%nat (Raw 11) (Raw 22) (Raw 33)) []) =
    Ok (mkMachine (set_dtors_running (scenario 0 10%nat 30%nat (Raw 11) (Raw 22) (Raw 33)) [0])
                  ([] ++ [(42%nat, [null_ptr; Raw 0; null_ptr])])).
Proof.
  split; [reflexivity|]. split; [reflexivity|]. split; [reflexivity|].
  apply (windows_single_callback (fun _ => true) exec_noop windows_paths (fun _ => Ok 42%nat)
           (mkMachine (scenario 0 10%nat 30%nat (Raw 11) (Raw 22) (Raw 33)) [])
           (Ptr 7 0) 42%nat (Raw 0)); reflexivity.
Defined.

Lemma create_tls_key_ok_key (st : TlsData) (d : option Instance) (s : Size) (k : TlsKey) :
  fst (create_tls_key st d s) = Ok k -> k = next_key st.
Proof.
  unfold create_tls_key. destruct (Z.ltb u128_max (next_key st + 1)); [discriminate|].
  simpl. destruct (BMap.insert (next_key st) (mkTlsEntry BMap.empty d) (keys st)) as [[o|] ks];
    [discriminate|].
  destruct (_ && _); simpl; [discriminate|]. intros H; injection H as <-. reflexivity.
Qed.

Lemma create_tls_key_unsup_state (st : TlsData) (d : option Instance) (s : Size) (msg : string) :
  fst (create_tls_key st d s) = Err (Unsup msg) ->
  exists ks, BMap.insert (next_key st) (mkTlsEntry BMap.empty d) (keys st) = (None, ks) /\
             snd (create_tls_key st d s) = set_keys (set_next_key st (next_key st + 1)) ks.
Proof.
  unfold create_tls_key. destruct (Z.ltb u128_max (next_key st + 1));
    [simpl; intros Hc; discriminate Hc|].
  cbn [keys set_next_key].
  destruct (BMap.insert (next_key st) (mkTlsEntry BMap.empty d) (keys st)) as [[o|] ks];
    [simpl; intros Hc; discriminate Hc|].
  intros _. exists ks. split; [reflexivity|].
  destruct (_ && _); reflexivity.
Qed.

(** C10: when [create_tls_key] fails with the unsupported error, the
    registry has changed anyway: the counter is incremented, the new key is
    registered with an empty entry and its destructor, [load_tls],
    [store_tls] and [delete_tls_key] succeed on it, and a later successful
    [create_tls_key] returns a strictly larger key. *)
Theorem create_failure_keeps_key (st : TlsData) (d : option Instance) (s : Size) (msg : string) :
  BMap.sorted (keys st) -> fst (create_tls_key st d s) = Err (Unsup msg) ->
  next_key (snd (create_tls_key st d s)) = next_key st + 1 /\
  BMap.get (next_key st) (keys st) = None /\
  BMap.get (next_key st) (keys (snd (create_tls_key st d s))) = Some (mkTlsEntry BMap.empty d) /\
  (forall t, load_tls (snd (create_tls_key st d s)) (next_key st) t = Ok null_ptr) /\
  (forall t v, fst (store_tls (snd (create_tls_key st d s)) (next_key st) t v) = Ok tt) /\
  fst (delete_tls_key (snd (create_tls_key st d s)) (next_key st)) = Ok tt /\
  (forall d' s' k', fst (create_tls_key (snd (create_tls_key st d s)) d' s') = Ok k' ->
     next_key st < k').
Proof.
  intros Hs Hf.
  destruct (create_tls_key_unsup_state st d s msg Hf) as [ks [Hins Hst]].
  pose proof (BMapFacts.insert_old (next_key st) (mkTlsEntry BMap.empty d) (keys st) Hs) as Hold.
  pose proof (BMapFacts.insert_sorted (next_key st) (mkTlsEntry BMap.empty d) (keys st) Hs) as Hs'.
  pose proof (BMapFacts.get_insert_same (next_key st) (mkTlsEntry BMap.empty d) (keys st)) as Hget.
  rewrite Hins in Hold, Hs', Hget. simpl in Hold, Hs', Hget.
  rewrite Hst.
  split; [reflexivity|]. split; [symmetry; exact Hold|]. split; [exact Hget|].
  split; [intros t; unfold load_tls; simpl; rewrite Hget; reflexivity|].
  split; [intros t v; unfold store_tls; simpl; rewrite Hget; reflexivity|].
  split.
  - unfold delete_tls_key. simpl.
    pose proof (BMapFacts.remove_old (next_key st) ks Hs') as Hr.
    rewrite Hget in Hr. destruct (BMap.remove (next_key st) ks) as [o' ks']. simpl in Hr.
    subst o'. reflexivity.
  - intros d' s' k' Hk. apply create_tls_key_ok_key in Hk. simpl in Hk. lia.
Qed.

Lemma create_failure_keeps_key_witness :
  BMap.sorted (keys (set_next_key tls_default 256)) /\
  fst (create_tls_key (set_next_key tls_default 256) None (mkSize 1)) =
    Err (Unsup "we ran out of TLS key space") /\
  next_key (snd (create_tls_key (set_next_key tls_default 256) None (mkSize 1))) = 257.
Proof.
  assert (Hs : BMap.sorted (keys (set_next_key tls_default 256))) by constructor.
  assert (Hf : fst (create_tls_key (set_next_key tls_default 256) None (mkSize 1)) =
                 Err (Unsup "we ran out of TLS key space")) by reflexivity.
  split; [exact Hs|]. split; [exact Hf|].
  apply (create_failure_keeps_key _ None (mkSize 1) _ Hs Hf).
Defined.

(** * Further properties of the shim *)

(** ** Helper lemmas *)


Lemma tls_data_eta (st : TlsData) : set_keys st (keys st) = st.
Proof. destruct st; reflexivity. Qed.

Lemma tls_inv_default : tls_inv tls_default.
Proof.
  apply tls_inv_intro; simpl; try constructor; unfold u128_max; simpl; lia.
Qed.

(** ** Registry operations *)

(** X1: storing under a registered key succeeds; a load of the same key
    and thread then returns the stored value (null after a store of
    [None]), and every other (key, thread) pair loads what it loaded
    before; no key is added or removed and no destructor changes. *)
Theorem store_then_load (st : TlsData) (k : TlsKey) (t : ThreadId) (new_data : option Scalar)
    (e : TlsEntry) :
  tls_wf st -> BMap.get k (keys st) = Some e ->
  fst (store_tls st k t new_data) = Ok tt /\
  load_tls (snd (store_tls st k t new_data)) k t =
    Ok (match new_data with Some v => v | None => null_ptr end) /\
  (forall k' t', k' <> k \/ t' <> t ->
     load_tls (snd (store_tls st k t new_data)) k' t' = load_tls st k' t') /\
  map fst (keys (snd (store_tls st k t new_data))) = map fst (keys st) /\
  (forall k', option_map dtor (BMap.get k' (keys (snd (store_tls st k t new_data)))) =
              option_map dtor (BMap.get k' (keys st))).
Proof.
  intros (Hs & Hd & _) He.
  pose proof (BMapFacts.get_forall _ k e (keys st) Hd He) as Hde. simpl in Hde.
  unfold store_tls. rewrite He.
  set (data' := match new_data with
                | Some ptr => snd (BMap.insert t ptr (data e))
                | None => snd (BMap.remove t (data e))
                end).
  assert (Hk : BMap.get k (snd (BMap.insert k (mkTlsEntry data' (dtor e)) (keys st))) =
               Some (mkTlsEntry data' (dtor e))) by apply BMapFacts.get_insert_same.
  assert (Hother : forall k', k' <> k ->
            BMap.get k' (snd (BMap.insert k (mkTlsEntry data' (dtor e)) (keys st))) =
            BMap.get k' (keys st)) by (intros; apply BMapFacts.get_insert_other; assumption).
  split; [reflexivity|]. split; [|split; [|split]].
  - unfold load_tls. simpl. rewrite Hk. simpl. unfold data'.
    destruct new_data as [v|].
    + rewrite BMapFacts.get_insert_same. reflexivity.
    + rewrite BMapFacts.get_remove_same by exact Hde. reflexivity.
  - intros k' t' Hne. unfold load_tls. simpl.
    destruct (Z.eq_dec k' k) as [->|Hk'].
    + destruct Hne as [Hne|Hne]; [congruence|].
      rewrite Hk, He. simpl. unfold data'. destruct new_data as [v|].
      * rewrite BMapFacts.get_insert_other by exact Hne. reflexivity.
      * rewrite BMapFacts.get_remove_other by exact Hne. reflexivity.
    + rewrite Hother by exact Hk'. reflexivity.
  - simpl.
    assert (Hin : In k (map fst (keys st))) by (eapply BMapFacts.get_in_keys; exact He).
    clear -Hin Hs. unfold BMap.sorted in Hs.
    induction (keys st) as [|[k' v'] m IH]; simpl in *; [contradiction|].
    inversion Hs as [|? ? Hs' Hf]; subst.
    destruct (Z.compare_spec k k') as [E|E|E]; simpl.
    + subst. reflexivity.
    + exfalso. destruct Hin as [Hin|Hin]; [lia|].
      rewrite Forall_forall in Hf. specialize (Hf k Hin). lia.
    + destruct (BMap.insert k _ m) as [o m''] eqn:Hi. simpl.
      f_equal. destruct Hin as [Hin|Hin]; [lia|].
      exact (IH Hs' Hin).
  - intros k'. simpl. destruct (Z.eq_dec k' k) as [->|Hk'].
    + rewrite Hk, He. reflexivity.
    + rewrite Hother by exact Hk'. reflexivity.
Qed.

Lemma store_then_load_witness :
  tls_wf (scenario 0 10%nat 30%nat (Raw 11) (Raw 22) (Raw 33)) /\
  BMap.get 2 (keys (scenario 0 10%nat 30%nat (Raw 11) (Raw 22) (Raw 33))) =
    Some (mkTlsEntry [(0, Raw 22)] None) /\
  load_tls (snd (store_tls (scenario 0 10%nat 30%nat (Raw 11) (Raw 22) (Raw 33)) 2 0 (Some (Raw 5)))) 2 0 =
    Ok (Raw 5).
Proof.
  assert (Hwf : tls_wf (scenario 0 10%nat 30%nat (Raw 11) (Raw 22) (Raw 33))).
  { vm_compute. split; [repeat constructor; lia|split; repeat constructor]. }
  assert (He : BMap.get 2 (keys (scenario 0 10%nat 30%nat (Raw 11) (Raw 22) (Raw 33))) =
               Some (mkTlsEntry [(0, Raw 22)] None)) by reflexivity.
  split; [exact Hwf|]. split; [exact He|].
  exact (proj1 (proj2 (store_then_load _ 2 0 (Some (Raw 5)) _ Hwf He))).
Defined.

(** X2: a successful [delete_tls_key k] makes [k] unknown to [load_tls]
    (UB) and changes no load of any other key, nor the counter, the global
    destructors or the set of running threads. *)
Theorem delete_then_load (st : TlsData) (k : TlsKey) :
  BMap.sorted (keys st) -> fst (delete_tls_key st k) = Ok tt ->
  (forall t, load_tls (snd (delete_tls_key st k)) k t =
             Err (Ub "loading from a non-existing TLS key")) /\
  (forall k' t, k' <> k -> load_tls (snd (delete_tls_key st k)) k' t = load_tls st k' t) /\
  next_key (snd (delete_tls_key st k)) = next_key st /\
  global_dtors (snd (delete_tls_key st k)) = global_dtors st /\
  dtors_running (snd (delete_tls_key st k)) = dtors_running st.
Proof.
  intros Hs. unfold delete_tls_key.
  pose proof (BMapFacts.get_remove_same k (keys st) Hs) as Hsame.
  pose proof (fun k' (H : k' <> k) => BMapFacts.get_remove_other k k' (keys st) H) as Hother.
  destruct (BMap.remove k (keys st)) as [[e|] ks]; simpl in *; [|intros Hc; discriminate Hc].
  intros _. split; [|split; [|auto]].
  - intros t. unfold load_tls. simpl. rewrite Hsame. reflexivity.
  - intros k' t Hne. unfold load_tls. simpl. rewrite (Hother k' Hne). reflexivity.
Qed.

Lemma delete_then_load_witness :
  BMap.sorted (keys (scenario 0 10%nat 30%nat (Raw 11) (Raw 22) (Raw 33))) /\
  fst (delete_tls_key (scenario 0 10%nat 30%nat (Raw 11) (Raw 22) (Raw 33)) 2) = Ok tt /\
  load_tls (snd (delete_tls_key (scenario 0 10%nat 30%nat (Raw 11) (Raw 22) (Raw 33)) 2)) 3 0 =
    load_tls (scenario 0 10%nat 30%nat (Raw 11) (Raw 22) (Raw 33)) 3 0.
Proof.
  assert (Hs : BMap.sorted (keys (scenario 0 10%nat 30%nat (Raw 11) (Raw 22) (Raw 33))))
    by (vm_compute; repeat constructor; lia).
  assert (Hd : fst (delete_tls_key (scenario 0 10%nat 30%nat (Raw 11) (Raw 22) (Raw 33)) 2) = Ok tt)
    by reflexivity.
  split; [exact Hs|]. split; [exact Hd|].
  apply (proj1 (proj2 (delete_then_load _ 2 Hs Hd))). lia.
Defined.

(** X3: when [create_tls_key] returns a key, the key is the old counter,
    was not registered before (otherwise the interpreter panics), is now
    registered with the given destructor and no value for any thread, and
    the counter moves past it; loads of every other key, the global
    destructors and the running threads are unchanged. *)
Theorem create_then_load (st : TlsData) (d : option Instance) (s : Size) (k : TlsKey) :
  BMap.sorted (keys st) -> fst (create_tls_key st d s) = Ok k ->
  k = next_key st /\ next_key (snd (create_tls_key st d s)) = k + 1 /\
  BMap.get k (keys st) = None /\
  BMap.get k (keys (snd (create_tls_key st d s))) = Some (mkTlsEntry BMap.empty d) /\
  (forall t, load_tls (snd (create_tls_key st d s)) k t = Ok null_ptr) /\
  (forall k' t, k' <> k -> load_tls (snd (create_tls_key st d s)) k' t = load_tls st k' t) /\
  global_dtors (snd (create_tls_key st d s)) = global_dtors st /\
  dtors_running (snd (create_tls_key st d s)) = dtors_running st.
Proof.
  intros Hs Hok. pose proof (create_tls_key_ok_key st d s k Hok) as ->.
  revert Hok. unfold create_tls_key.
  destruct (Z.ltb u128_max (next_key st + 1)); [simpl; intros Hc; discriminate Hc|].
  cbn [keys set_next_key].
  pose proof (BMapFacts.insert_old (next_key st) (mkTlsEntry BMap.empty d) (keys st) Hs) as Hold.
  pose proof (BMapFacts.get_insert_same (next_key st) (mkTlsEntry BMap.empty d) (keys st)) as Hget.
  pose proof (fun k' (H : k' <> next_key st) =>
                BMapFacts.get_insert_other (next_key st) k' (mkTlsEntry BMap.empty d) (keys st) H)
    as Hother.
  destruct (BMap.insert (next_key st) (mkTlsEntry BMap.empty d) (keys st)) as [[o|] ks];
    simpl in Hold, Hget, Hother; [simpl; intros Hc; discriminate Hc|].
  destruct (_ && _); simpl; [intros Hc; discriminate Hc|]. intros _.
  split; [reflexivity|]. split; [reflexivity|]. split; [symmetry; exact Hold|].
  split; [exact Hget|].
  split; [intros t; unfold load_tls; simpl; rewrite Hget; reflexivity|].
  split; [|split; reflexivity].
  intros k' t Hne. unfold load_tls. simpl. rewrite (Hother k' Hne). reflexivity.
Qed.

Lemma create_then_load_witness :
  BMap.sorted (keys (scenario 0 10%nat 30%nat (Raw 11) (Raw 22) (Raw 33))) /\
  fst (create_tls_key (scenario 0 10%nat 30%nat (Raw 11) (Raw 22) (Raw 33)) None scenario_size) = Ok 4 /\
  load_tls (snd (create_tls_key (scenario 0 10%nat 30%nat (Raw 11) (Raw 22) (Raw 33)) None scenario_size)) 4 0
    = Ok null_ptr.
Proof.
  assert (Hs : BMap.sorted (keys (scenario 0 10%nat 30%nat (Raw 11) (Raw 22) (Raw 33))))
    by (vm_compute; repeat constructor; lia).
  assert (Hc : fst (create_tls_key (scenario 0 10%nat 30%nat (Raw 11) (Raw 22) (Raw 33)) None scenario_size)
               = Ok 4) by reflexivity.
  split; [exact Hs|]. split; [exact Hc|].
  exact (proj1 (proj2 (proj2 (proj2 (proj2 (create_then_load _ None scenario_size 4 Hs Hc))))) 0).
Defined.

(** X4: every UB error of the shim's calls leaves [TlsData] unchanged:
    a failed [delete_tls_key], [load_tls], [store_tls] or
    [set_global_dtor] has no effect ([create_tls_key] never reports UB). *)
Theorem ub_leaves_state (st : TlsData) (op : Op) (msg : string) :
  fst (op_step st op) = Err (Ub msg) -> snd (op_step st op) = st.
Proof.
  destruct op as [d s|key|key t|key t v|t d a|k t]; simpl.
  - unfold create_tls_key.
    destruct (Z.ltb u128_max (next_key st + 1)); [simpl; intros Hc; discriminate Hc|].
    cbn [keys set_next_key].
    destruct (BMap.insert (next_key st) (mkTlsEntry BMap.empty d) (keys st)) as [[o|] ks];
      [simpl; intros Hc; discriminate Hc|].
    destruct (_ && _); simpl; intros Hc; discriminate Hc.
  - unfold delete_tls_key. destruct (BMap.remove key (keys st)) as [[e|] ks]; simpl;
      [intros Hc; discriminate Hc|reflexivity].
  - destruct (load_tls st key t); reflexivity.
  - unfold store_tls. destruct (BMap.get key (keys st)); simpl; [intros Hc; discriminate Hc|reflexivity].
  - unfold set_global_dtor. destruct (contains (dtors_running st) t); simpl; [reflexivity|].
    destruct (BMap.insert t (d, a) (global_dtors st)) as [[o|] g]; simpl; intros Hc; discriminate Hc.
  - intros Hc; discriminate Hc.
Qed.

Lemma ub_leaves_state_witness :
  fst (op_step tls_default (OpDelete 5)) = Err (Ub "removing a non-existig TLS key") /\
  snd (op_step tls_default (OpDelete 5)) = tls_default.
Proof.
  split; [vm_compute; reflexivity|].
  apply (ub_leaves_state tls_default (OpDelete 5) "removing a non-existig TLS key").
  vm_compute. reflexivity.
Defined.

(** X5: in a session state, [create_tls_key] panics exactly when the u128
    counter would overflow ([next_key] is [u128::MAX]), and then leaves the
    state unchanged; the [unwrap_none] on the insertion never fires. *)
Theorem create_panics_only_on_overflow (st : TlsData) (d : option Instance) (s : Size) :
  tls_inv st ->
  ((exists msg, fst (create_tls_key st d s) = Err (Panic msg)) <-> next_key st = u128_max) /\
  (next_key st = u128_max ->
     create_tls_key st d s = (Err (Panic "attempt to add with overflow"), st)).
Proof.
  intros (Hwf & Hn & Hk). destruct Hwf as (Hs & _ & _).
  assert (Hover : next_key st = u128_max ->
                  create_tls_key st d s = (Err (Panic "attempt to add with overflow"), st)).
  { intros Heq. unfold create_tls_key. rewrite Heq, (proj2 (Z.ltb_lt _ _)) by lia. reflexivity. }
  split; [|exact Hover]. split.
  - intros [msg Hp]. destruct (Z.eq_dec (next_key st) u128_max) as [E|E]; [exact E|exfalso].
    revert Hp. unfold create_tls_key. rewrite (proj2 (Z.ltb_ge _ _)) by lia.
    cbn [keys set_next_key].
    assert (Hfresh : BMap.get (next_key st) (keys st) = None).
    { apply BMapFacts.get_absent. eapply Forall_impl; [|exact Hk]. simpl. lia. }
    pose proof (BMapFacts.insert_old (next_key st) (mkTlsEntry BMap.empty d) (keys st) Hs) as Hold.
    rewrite Hfresh in Hold.
    destruct (BMap.insert (next_key st) (mkTlsEntry BMap.empty d) (keys st)) as [[o|] ks];
      simpl in Hold; [discriminate|].
    destruct (_ && _); simpl; intros Hc; discriminate Hc.
  - intros Heq. rewrite (Hover Heq). eexists. reflexivity.
Qed.

Lemma create_panics_only_on_overflow_witness :
  tls_inv (set_next_key tls_default u128_max) /\
  create_tls_key (set_next_key tls_default u128_max) None scenario_size =
    (Err (Panic "attempt to add with overflow"), set_next_key tls_default u128_max).
Proof.
  assert (Hinv : tls_inv (set_next_key tls_default u128_max)).
  { apply tls_inv_intro; simpl; try constructor; unfold u128_max; simpl; lia. }
  split; [exact Hinv|].
  apply (proj2 (create_panics_only_on_overflow _ None scenario_size Hinv)). reflexivity.
Defined.

(** X6: key 0 is never registered in a session started from
    [TlsData::default()]: whatever calls were made, loading, storing or
    deleting key 0 is UB. *)
Theorem key_zero_unusable (ops : list Op) (t : ThreadId) (v : option Scalar) :
  load_tls (snd (run_ops tls_default ops)) 0 t = Err (Ub "loading from a non-existing TLS key") /\
  fst (store_tls (snd (run_ops tls_default ops)) 0 t v) = Err (Ub "storing to a non-existing TLS key") /\
  fst (delete_tls_key (snd (run_ops tls_default ops)) 0) =
    Err (Ub "removing a non-existig TLS key").
Proof.
  pose proof (run_ops_inv ops tls_default tls_inv_default) as H.
  destruct (run_ops tls_default ops) as [ks st]. simpl.
  destruct H as (_ & _ & _ & (Hwf & _ & Hk)). destruct Hwf as (Hs & _ & _).
  assert (Hnone : BMap.get 0 (keys st) = None).
  { apply BMapFacts.get_absent. eapply Forall_impl; [|exact Hk]. simpl. lia. }
  unfold load_tls, store_tls, delete_tls_key. rewrite Hnone.
  pose proof (BMapFacts.remove_old 0 (keys st) Hs) as Hr. rewrite Hnone in Hr.
  destruct (BMap.remove 0 (keys st)) as [o ks']. simpl in Hr. subst o.
  split; [reflexivity|split; reflexivity].
Qed.

(** ** The destructor scan *)

Lemma fetch_loop_drained (s : option TlsKey) (t : ThreadId) (ks : BMap.t TlsEntry) :
  Forall (fun p => BMap.sorted (data (snd p))) ks -> Forall (entry_drained t) ks ->
  fetch_loop s t ks = (None, ks).
Proof.
  induction ks as [|[key e] ks IH]; simpl; intros Hd Hdr; [reflexivity|].
  inversion Hd as [|? ? He Hd']; inversion Hdr as [|? ? Ht Hdr']; subst.
  unfold entry_drained in Ht; simpl in He, Ht.
  pose proof (BMapFacts.remove_old t (data e) He) as Hr. rewrite Ht in Hr.
  rewrite (IH Hd' Hdr').
  destruct (in_range s key); [|reflexivity].
  destruct (BMap.remove t (data e)) as [o d']; simpl in Hr; subst o. reflexivity.
Qed.

Lemma fetch_loop_none_drained (t : ThreadId) (ks : BMap.t TlsEntry) :
  Forall (fun p => BMap.sorted (data (snd p))) ks -> fst (fetch_loop None t ks) = None ->
  Forall (entry_drained t) (snd (fetch_loop None t ks)).
Proof.
  induction ks as [|[key e] ks IH]; simpl; intros Hd; [constructor|].
  inversion Hd as [|? ? He Hd']; subst; simpl in He.
  pose proof (BMapFacts.remove_old t (data e) He) as Hr.
  pose proof (BMapFacts.get_remove_same t (data e) He) as Hrs.
  destruct (BMap.remove t (data e)) as [[v|] d'] eqn:Hrm; simpl in Hr, Hrs.
  - destruct (dtor e); simpl; [intros Hc; discriminate Hc|].
    destruct (fetch_loop None t ks) as [r ks''] eqn:Hf; simpl in *. intros Hn; subst r.
    constructor; [exact Hrs|]. apply IH; [exact Hd'|reflexivity].
  - destruct (fetch_loop None t ks) as [r ks''] eqn:Hf; simpl in *. intros Hn; subst r.
    constructor; [unfold entry_drained; simpl; symmetry; exact Hr|]. apply IH; [exact Hd'|reflexivity].
Qed.

Lemma tls_wf_fetch (st : TlsData) (k : option TlsKey) (t : ThreadId) :
  tls_wf st -> tls_wf (snd (fetch_tls_dtor st k t)).
Proof.
  intros (Hs & Hd & Hg). unfold fetch_tls_dtor.
  pose proof (fetch_loop_keys k t (keys st)) as Hkeys.
  pose proof (fetch_loop_data_sorted k t (keys st) Hd) as Hd'.
  destruct (fetch_loop k t (keys st)) as [r ks]. simpl in *.
  unfold tls_wf, BMap.sorted in *. simpl. rewrite Hkeys. auto.
Qed.

Lemma fetch_running (st : TlsData) (k : option TlsKey) (t : ThreadId) :
  dtors_running (snd (fetch_tls_dtor st k t)) = dtors_running st.
Proof. unfold fetch_tls_dtor. destruct (fetch_loop k t (keys st)); reflexivity. Qed.

Lemma fetch_tls_none_drained (st : TlsData) (t : ThreadId) :
  tls_wf st -> fst (fetch_tls_dtor st None t) = None ->
  Forall (entry_drained t) (keys (snd (fetch_tls_dtor st None t))).
Proof.
  intros (_ & Hd & _). unfold fetch_tls_dtor.
  pose proof (fetch_loop_none_drained t (keys st) Hd) as H.
  destruct (fetch_loop None t (keys st)); simpl in *. exact H.
Qed.

Lemma load_drained (st : TlsData) (t : ThreadId) (k : TlsKey) :
  Forall (entry_drained t) (keys st) -> BMap.get k (keys st) <> None -> load_tls st k t = Ok null_ptr.
Proof.
  intros Hdr Hk. unfold load_tls. destruct (BMap.get k (keys st)) as [e|] eqn:He; [|congruence].
  pose proof (BMapFacts.get_forall _ k e (keys st) Hdr He) as H. unfold entry_drained in H.
  simpl in H. rewrite H. reflexivity.
Qed.



(** X8: a scan that starts after a key at or above every registered key
    finds nothing and changes nothing. *)
Theorem fetch_past_last_key (st : TlsData) (k : TlsKey) (t : ThreadId) :
  Forall (fun k' => k' <= k) (map fst (keys st)) -> fetch_tls_dtor st (Some k) t = (None, st).
Proof.
  intros H. unfold fetch_tls_dtor.
  assert (Hl : forall ks, Forall (fun k' => k' <= k) (map fst ks) ->
                          fetch_loop (Some k) t ks = (None, ks)).
  { induction ks as [|[key e] ks IH]; simpl; intros Hf; [reflexivity|].
    inversion Hf as [|? ? Hk Hf']; subst. rewrite (IH Hf').
    replace (k <? key) with false by (symmetry; apply Z.ltb_ge; exact Hk). reflexivity. }
  rewrite (Hl _ H). rewrite tls_data_eta. reflexivity.
Qed.

Lemma fetch_past_last_key_witness :
  Forall (fun k' => k' <= 3) (map fst (keys (scenario 0 10%nat 30%nat (Raw 11) (Raw 22) (Raw 33)))) /\
  fetch_tls_dtor (scenario 0 10%nat 30%nat (Raw 11) (Raw 22) (Raw 33)) (Some 3) 0 =
    (None, scenario 0 10%nat 30%nat (Raw 11) (Raw 22) (Raw 33)).
Proof.
  assert (H : Forall (fun k' => k' <= 3) (map fst (keys (scenario 0 10%nat 30%nat (Raw 11) (Raw 22) (Raw 33))))).
  { rewrite Forall_forall. intros x Hx. vm_compute in Hx. lia. }
  split; [exact H|]. apply (fetch_past_last_key _ 3 0 H).
Defined.

(** ** The destructor drivers *)

Lemma contains_hs_insert_same (s : list ThreadId) (x : ThreadId) : contains (hs_insert s x) x = true.
Proof.
  unfold hs_insert. destruct (contains s x) eqn:E; [exact E|]. simpl. rewrite Z.eqb_refl. reflexivity.
Qed.

Section DriverFacts.

Variable exec : Instance -> list Scalar -> TlsData -> InterpResult TlsData.
Variable t : ThreadId.

Lemma dtor_loop_calls (fuel : nat) : forall (m m' : Machine) r,
  dtor_loop exec fuel t m r = Some (Ok m') ->
  exists rest, calls m' = calls m ++ rest /\
    Forall (fun c => exists f v, c = (f, [v]) /\ is_null v = false) rest.
Proof.
  induction fuel as [|fuel IH]; intros m m' [[[f v] k]|] H; simpl in H;
    try (injection H as <-; exists []; rewrite app_nil_r; split; [reflexivity|constructor]);
    [discriminate|].
  destruct (is_null v) eqn:Hn; [discriminate|].
  unfold call_function, bind in H. destruct (exec f [v] (tls m)) as [st|e]; [|discriminate].
  simpl in H. destruct (fetch_tls_dtor st (Some k) t) as [[r1|] st1].
  - apply IH in H as [rest [Hc Hf]]. exists ((f, [v]) :: rest). simpl in Hc.
    rewrite Hc, <- app_assoc. split; [reflexivity|]. constructor; [|exact Hf].
    exists f, v. split; [reflexivity|exact Hn].
  - destruct (fetch_tls_dtor st1 None t) as [r2 st2].
    apply IH in H as [rest [Hc Hf]]. exists ((f, [v]) :: rest). simpl in Hc.
    rewrite Hc, <- app_assoc. split; [reflexivity|]. constructor; [|exact Hf].
    exists f, v. split; [reflexivity|exact Hn].
Qed.

Hypothesis exec_wf : forall f args st st', tls_wf st -> exec f args st = Ok st' -> tls_wf st'.

Lemma dtor_loop_drained (fuel : nat) : forall (m m' : Machine) r,
  tls_wf (tls m) -> (r = None -> Forall (entry_drained t) (keys (tls m))) ->
  dtor_loop exec fuel t m r = Some (Ok m') ->
  tls_wf (tls m') /\ Forall (entry_drained t) (keys (tls m')).
Proof.
  induction fuel as [|fuel IH]; intros m m' [[[f v] k]|] Hwf Hdr H; simpl in H;
    try (injection H as <-; split; [exact Hwf|apply Hdr; reflexivity]);
    [discriminate|].
  destruct (is_null v); [discriminate|].
  unfold call_function, bind in H. destruct (exec f [v] (tls m)) as [st|e] eqn:Hex; [|discriminate].
  pose proof (exec_wf _ _ _ _ Hwf Hex) as Hwf1.
  simpl in H. pose proof (tls_wf_fetch st (Some k) t Hwf1) as Hwf2.
  destruct (fetch_tls_dtor st (Some k) t) as [[r1|] st1]; simpl in Hwf2.
  - eapply IH; [| |exact H]; [exact Hwf2|]. intros Hc; discriminate Hc.
  - pose proof (tls_wf_fetch st1 None t Hwf2) as Hwf3.
    pose proof (fetch_tls_none_drained st1 t Hwf2) as Hdr3.
    destruct (fetch_tls_dtor st1 None t) as [r2 st2]; simpl in Hwf3, Hdr3.
    eapply IH; [| |exact H]; [exact Hwf3|exact Hdr3].
Qed.

End DriverFacts.

Section RunningFacts.

Variable exec : Instance -> list Scalar -> TlsData -> InterpResult TlsData.
Hypothesis exec_running : forall f args st st' x, exec f args st = Ok st' ->
  contains (dtors_running st) x = true -> contains (dtors_running st') x = true.

Lemma dtor_loop_running (t x : ThreadId) (fuel : nat) : forall (m m' : Machine) r,
  contains (dtors_running (tls m)) x = true ->
  dtor_loop exec fuel t m r = Some (Ok m') -> contains (dtors_running (tls m')) x = true.
Proof.
  induction fuel as [|fuel IH]; intros m m' [[[f v] k]|] Hx H; simpl in H;
    try (injection H as <-; exact Hx); [discriminate|].
  destruct (is_null v); [discriminate|].
  unfold call_function, bind in H. destruct (exec f [v] (tls m)) as [st|e] eqn:Hex; [|discriminate].
  pose proof (exec_running _ _ _ _ x Hex Hx) as Hx1.
  simpl in H. pose proof (fetch_running st (Some k) t) as Hr1.
  destruct (fetch_tls_dtor st (Some k) t) as [[r1|] st1]; simpl in Hr1.
  - eapply IH; [|exact H]. simpl. rewrite Hr1. exact Hx1.
  - pose proof (fetch_running st1 None t) as Hr2.
    destruct (fetch_tls_dtor st1 None t) as [r2 st2]; simpl in Hr2.
    eapply IH; [|exact H]. simpl. rewrite Hr2, Hr1. exact Hx1.
Qed.

End RunningFacts.

(** The three phases of a successful [run_tls_dtors_for_active_thread]:
    the thread is marked as running, the global destructor (if any) runs,
    then the loop starts with a scan from the first key. *)
Lemma run_tls_dtors_ok (os : string) (t : ThreadId) (ht : ThreadId -> bool)
    (exec : Instance -> list Scalar -> TlsData -> InterpResult TlsData) (fuel : nat) (m m' : Machine) :
  os <> "windows"%string ->
  run_tls_dtors_for_active_thread os t ht exec fuel m = Some (Ok m') ->
  contains (dtors_running (tls m)) t = false /\ ht t = true /\
  exists mg,
    match BMap.get t (global_dtors (tls m)) with
    | Some (g, a) =>
        call_function exec (set_tls m (set_dtors_running (tls m) (hs_insert (dtors_running (tls m)) t)))
          g [a] = Ok mg
    | None => mg = set_tls m (set_dtors_running (tls m) (hs_insert (dtors_running (tls m)) t))
    end /\
    dtor_loop exec fuel t (set_tls mg (snd (fetch_tls_dtor (tls mg) None t)))
      (fst (fetch_tls_dtor (tls mg) None t)) = Some (Ok m').
Proof.
  intros Hos H. unfold run_tls_dtors_for_active_thread in H.
  rewrite (proj2 (String.eqb_neq _ _) Hos) in H.
  destruct (contains (dtors_running (tls m)) t) eqn:Hr; [discriminate|].
  cbn [tls set_tls set_dtors_running global_dtors] in H.
  destruct (BMap.get t (global_dtors (tls m))) as [[g a]|] eqn:Hg.
  - destruct (call_function exec _ g [a]) as [mg|e] eqn:Hc; [|discriminate].
    destruct (ht t) eqn:Ht; simpl in H; [|discriminate].
    split; [reflexivity|]. split; [reflexivity|]. exists mg. split; [reflexivity|].
    destruct (fetch_tls_dtor (tls mg) None t); exact H.
  - destruct (ht t) eqn:Ht; simpl in H; [|discriminate].
    split; [reflexivity|]. split; [reflexivity|]. eexists. split; [reflexivity|].
    simpl. destruct (fetch_tls_dtor _ None t); exact H.
Qed.

(** X9: whatever the destructors do, a successful
    [run_tls_dtors_for_active_thread] makes first the call of the thread's
    global destructor (if one is set) and then only calls of one argument
    that is never null: the loop panics instead of calling a destructor
    with a null value. *)
Theorem drain_calls_non_null (os : string) (t : ThreadId) (ht : ThreadId -> bool)
    (exec : Instance -> list Scalar -> TlsData -> InterpResult TlsData) (fuel : nat) (m m' : Machine) :
  os <> "windows"%string ->
  run_tls_dtors_for_active_thread os t ht exec fuel m = Some (Ok m') ->
  exists rest, calls m' = calls m ++ global_call (tls m) t ++ rest /\
    Forall (fun c => exists f v, c = (f, [v]) /\ is_null v = false) rest.
Proof.
  intros Hos H. destruct (run_tls_dtors_ok os t ht exec fuel m m' Hos H) as (_ & _ & mg & Hg & Hl).
  apply dtor_loop_calls in Hl as [rest [Hc Hf]]. exists rest. split; [|exact Hf].
  rewrite Hc. simpl. unfold global_call.
  destruct (BMap.get t (global_dtors (tls m))) as [[g a]|].
  - unfold call_function, bind in Hg. destruct (exec g [a] _); [|discriminate].
    injection Hg as <-. simpl. rewrite <- app_assoc. reflexivity.
  - subst mg. reflexivity.
Qed.

Lemma drain_calls_non_null_witness :
  exists m', run_tls_dtors_for_active_thread "linux" 0 (fun _ => true) exec_noop 3%nat
               (mkMachine (scenario 0 10%nat 30%nat (Raw 11) (Raw 22) (Raw 33)) []) = Some (Ok m') /\
    exists rest, calls m' = [] ++ global_call (scenario 0 10%nat 30%nat (Raw 11) (Raw 22) (Raw 33)) 0 ++ rest /\
      Forall (fun c => exists f v, c = (f, [v]) /\ is_null v = false) rest.
Proof.
  eexists. split; [vm_compute; reflexivity|].
  refine (drain_calls_non_null "linux" 0 (fun _ => true) exec_noop 3%nat
            (mkMachine (scenario 0 10%nat 30%nat (Raw 11) (Raw 22) (Raw 33)) []) _ _ _).
  - intros Hc; discriminate Hc.
  - vm_compute. reflexivity.
Defined.

(** X10: if every destructor keeps the registry well formed, a
    successful [run_tls_dtors_for_active_thread] ends with no value of the
    thread left under any key: every registered key loads null for it. *)
Theorem drain_clears_thread (os : string) (t : ThreadId) (ht : ThreadId -> bool)
    (exec : Instance -> list Scalar -> TlsData -> InterpResult TlsData) (fuel : nat) (m m' : Machine) :
  os <> "windows"%string ->
  (forall f args st st', tls_wf st -> exec f args st = Ok st' -> tls_wf st') ->
  tls_wf (tls m) ->
  run_tls_dtors_for_active_thread os t ht exec fuel m = Some (Ok m') ->
  tls_wf (tls m') /\
  (forall k, BMap.get k (keys (tls m')) <> None -> load_tls (tls m') k t = Ok null_ptr).
Proof.
  intros Hos Hex Hwf H. destruct (run_tls_dtors_ok os t ht exec fuel m m' Hos H) as (_ & _ & mg & Hg & Hl).
  assert (Hwfg : tls_wf (tls mg)).
  { destruct (BMap.get t (global_dtors (tls m))) as [[g a]|].
    - unfold call_function, bind in Hg. destruct (exec g [a] _) as [st|] eqn:He; [|discriminate].
      injection Hg as <-. simpl. eapply Hex; [|exact He]. exact Hwf.
    - subst mg. exact Hwf. }
  pose proof (tls_wf_fetch (tls mg) None t Hwfg) as Hwf1.
  pose proof (fetch_tls_none_drained (tls mg) t Hwfg) as Hdr1.
  apply (dtor_loop_drained exec t Hex) in Hl as [Hwf' Hdr']; [|exact Hwf1|exact Hdr1].
  split; [exact Hwf'|]. intros k Hk. apply load_drained; assumption.
Qed.

Lemma drain_clears_thread_witness :
  exists m', run_tls_dtors_for_active_thread "linux" 0 (fun _ => true) exec_noop 3%nat
               (mkMachine (scenario 0 10%nat 30%nat (Raw 11) (Raw 22) (Raw 33)) []) = Some (Ok m') /\
    tls_wf (tls m') /\ load_tls (tls m') 2 0 = Ok null_ptr.
Proof.
  eexists. split; [vm_compute; reflexivity|].
  assert (Hwf : tls_wf (scenario 0 10%nat 30%nat (Raw 11) (Raw 22) (Raw 33))).
  { vm_compute. split; [repeat constructor; lia|split; repeat constructor]. }
  assert (Hos : "linux"%string <> "windows"%string) by (intros Hc; discriminate Hc).
  assert (Hex : forall f args st st', tls_wf st -> exec_noop f args st = Ok st' -> tls_wf st')
    by (intros f args st st' Hst He; injection He as <-; exact Hst).
  destruct (drain_clears_thread "linux" 0 (fun _ => true) exec_noop 3%nat
              (mkMachine (scenario 0 10%nat 30%nat (Raw 11) (Raw 22) (Raw 33)) []) _
              Hos Hex Hwf ltac:(vm_compute; reflexivity)) as [H1 H2].
  split; [exact H1|]. apply H2. vm_compute. discriminate.
Defined.

(** X11: if destructors never take a thread out of the running set, then
    after a successful [run_tls_dtors_for_active_thread] the thread is in
    the running set: running its destructors again panics, and setting a
    global destructor for it is UB. *)
Theorem drain_twice_panics (os : string) (t : ThreadId) (ht : ThreadId -> bool)
    (exec : Instance -> list Scalar -> TlsData -> InterpResult TlsData) (fuel : nat) (m m' : Machine) :
  os <> "windows"%string ->
  (forall f args st st' x, exec f args st = Ok st' ->
     contains (dtors_running st) x = true -> contains (dtors_running st') x = true) ->
  run_tls_dtors_for_active_thread os t ht exec fuel m = Some (Ok m') ->
  contains (dtors_running (tls m')) t = true /\
  (forall fuel', run_tls_dtors_for_active_thread os t ht exec fuel' m' =
                 Some (Err (Panic "running TLS dtors twice"))) /\
  (forall d a, fst (set_global_dtor (tls m') t d a) =
               Err (Ub "setting global destructor while destructors are already running")).
Proof.
  intros Hos Hex H. destruct (run_tls_dtors_ok os t ht exec fuel m m' Hos H) as (_ & _ & mg & Hg & Hl).
  assert (Hg' : contains (dtors_running (tls mg)) t = true).
  { destruct (BMap.get t (global_dtors (tls m))) as [[g a]|].
    - unfold call_function, bind in Hg. destruct (exec g [a] _) as [st|] eqn:He; [|discriminate].
      injection Hg as <-. simpl. eapply Hex; [exact He|]. simpl. apply contains_hs_insert_same.
    - subst mg. simpl. apply contains_hs_insert_same. }
  assert (Hrun : contains (dtors_running (tls m')) t = true).
  { eapply (dtor_loop_running exec Hex t t fuel); [|exact Hl]. simpl.
    rewrite fetch_running. exact Hg'. }
  split; [exact Hrun|]. split.
  - intros fuel'. unfold run_tls_dtors_for_active_thread.
    rewrite (proj2 (String.eqb_neq _ _) Hos), Hrun. reflexivity.
  - intros d a. unfold set_global_dtor. rewrite Hrun. reflexivity.
Qed.

Lemma drain_twice_panics_witness :
  exists m', run_tls_dtors_for_active_thread "linux" 0 (fun _ => true) exec_noop 3%nat
               (mkMachine (scenario 0 10%nat 30%nat (Raw 11) (Raw 22) (Raw 33)) []) = Some (Ok m') /\
    run_tls_dtors_for_active_thread "linux" 0 (fun _ => true) exec_noop 3%nat m' =
      Some (Err (Panic "running TLS dtors twice")).
Proof.
  eexists. split; [vm_compute; reflexivity|].
  refine ((proj1 (proj2 (drain_twice_panics "linux" 0 (fun _ => true) exec_noop 3%nat
            (mkMachine (scenario 0 10%nat 30%nat (Raw 11) (Raw 22) (Raw 33)) []) _ _ _ _))) 3%nat).
  - intros Hc; discriminate Hc.
  - intros f args st st' x He Hx. injection He as <-. exact Hx.
  - vm_compute. reflexivity.
Defined.

(** X12: on Windows, [run_windows_tls_dtors] succeeds only for thread 0,
    and if the callback never takes a thread out of the running set, a
    second run panics. *)
Theorem windows_twice_panics (thread : ThreadId)
    (exec : Instance -> list Scalar -> TlsData -> InterpResult TlsData)
    (eval_path_scalar : list string -> InterpResult Scalar) (get_fn : Scalar -> InterpResult Instance)
    (m m' : Machine) :
  (forall f args st st' x, exec f args st = Ok st' ->
     contains (dtors_running st) x = true -> contains (dtors_running st') x = true) ->
  run_windows_tls_dtors "windows" thread exec eval_path_scalar get_fn m = Ok m' ->
  thread = 0 /\ contains (dtors_running (tls m')) 0 = true /\
  run_windows_tls_dtors "windows" thread exec eval_path_scalar get_fn m' =
    Err (Panic "running TLS dtors twice").
Proof.
  intros Hex H. unfold run_windows_tls_dtors in H. simpl in H.
  destruct (Z.eqb_spec thread 0) as [->|Hne]; simpl in H; [|discriminate].
  destruct (contains (dtors_running (tls m)) 0) eqn:Hr; simpl in H; [discriminate|].
  destruct (eval_path_scalar _) as [cb|]; simpl in H; [|discriminate].
  destruct (get_fn cb) as [f|]; simpl in H; [|discriminate].
  destruct (eval_path_scalar _) as [reason|]; simpl in H; [|discriminate].
  unfold call_function, bind in H. simpl in H.
  destruct (exec f _ _) as [st|] eqn:He; [|discriminate]. injection H as <-.
  assert (Hrun : contains (dtors_running st) 0 = true).
  { eapply Hex; [exact He|]. simpl. apply contains_hs_insert_same. }
  split; [reflexivity|]. split; [exact Hrun|].
  unfold run_windows_tls_dtors. simpl. rewrite Hrun. reflexivity.
Qed.

Lemma windows_twice_panics_witness :
  exists m', run_windows_tls_dtors "windows" 0 exec_noop windows_paths (fun _ => Ok 42%nat)
               (mkMachine (scenario 0 10%nat 30%nat (Raw 11) (Raw 22) (Raw 33)) []) = Ok m' /\
    run_windows_tls_dtors "windows" 0 exec_noop windows_paths (fun _ => Ok 42%nat) m' =
      Err (Panic "running TLS dtors twice").
Proof.
  eexists. split; [vm_compute; reflexivity|].
  refine (proj2 (proj2 (windows_twice_panics 0 exec_noop windows_paths (fun _ => Ok 42%nat)
            (mkMachine (scenario 0 10%nat 30%nat (Raw 11) (Raw 22) (Raw 33)) []) _ _ _))).
  - intros f args st st' x He Hx. injection He as <-. exact Hx.
  - vm_compute. reflexivity.
Defined.

Lemma fetch_loop_app_skip (s : option TlsKey) (t : ThreadId) (l1 l2 : BMap.t TlsEntry) :
  Forall (fun p => in_range s (fst p) = false) l1 ->
  fetch_loop s t (l1 ++ l2) = (fst (fetch_loop s t l2), l1 ++ snd (fetch_loop s t l2)).
Proof.
  induction l1 as [|[key e] l1 IH]; simpl; intros Hf.
  - destruct (fetch_loop s t l2); reflexivity.
  - inversion Hf as [|? ? Hk Hf']; subst. simpl in Hk. rewrite Hk, (IH Hf').
    destruct (fetch_loop s t l2); reflexivity.
Qed.

Lemma fetch_loop_above (key : TlsKey) (t : ThreadId) (l : BMap.t TlsEntry) :
  Forall (fun k => key < k) (map fst l) -> fetch_loop (Some key) t l = fetch_loop None t l.
Proof.
  induction l as [|[k e] l IH]; simpl; intros Hf; [reflexivity|].
  inversion Hf as [|? ? Hk Hf']; subst. rewrite (proj2 (Z.ltb_lt _ _) Hk), (IH Hf'). reflexivity.
Qed.

Lemma drain_all_drained (t : ThreadId) (l : BMap.t TlsEntry) :
  Forall (fun p => BMap.sorted (data (snd p))) l ->
  Forall (fun p => BMap.sorted (data (snd p))) (drain_all t l) /\ Forall (entry_drained t) (drain_all t l).
Proof.
  induction l as [|[k e] l IH]; simpl; intros Hd; [split; constructor|].
  inversion Hd as [|? ? He Hd']; subst. simpl in He. destruct (IH Hd') as [H1 H2].
  split; constructor; try assumption; simpl.
  - apply BMapFacts.remove_sorted. exact He.
  - unfold entry_drained. simpl. apply BMapFacts.get_remove_same. exact He.
Qed.

Lemma dtor_loop_none (exec : Instance -> list Scalar -> TlsData -> InterpResult TlsData)
    (fuel : nat) (t : ThreadId) (m : Machine) :
  dtor_loop exec fuel t m None = Some (Ok m).
Proof. destruct fuel; reflexivity. Qed.

Lemma drain_all_cons (t : ThreadId) (k : TlsKey) (e : TlsEntry) (l : BMap.t TlsEntry) :
  drain_all t ((k, e) :: l) = (k, scan_entry t true e) :: drain_all t l.
Proof. reflexivity. Qed.

Section PureDrain.

Variable exec : Instance -> list Scalar -> TlsData -> InterpResult TlsData.
Hypothesis exec_pure : forall f args st, exec f args st = Ok st.
Variable t : ThreadId.
Variable st0 : TlsData.

Lemma dtor_loop_pure (rest : BMap.t TlsEntry) : forall (fuel : nat) (cs : list (Instance * list Scalar))
    (prefix : BMap.t TlsEntry),
  BMap.sorted rest ->
  Forall (fun p => BMap.sorted (data (snd p))) prefix ->
  Forall (fun p => BMap.sorted (data (snd p))) rest ->
  Forall (entry_drained t) prefix ->
  (forall p q, In p prefix -> In q rest -> fst p < fst q) ->
  Forall (fun c => Forall (fun v => is_null v = false) (snd c)) (pending_calls t rest) ->
  (List.length (pending_calls t rest) <= fuel)%nat ->
  dtor_loop exec fuel t (mkMachine (set_keys st0 (prefix ++ snd (fetch_loop None t rest))) cs)
    (fst (fetch_loop None t rest)) =
  Some (Ok (mkMachine (set_keys st0 (prefix ++ drain_all t rest)) (cs ++ pending_calls t rest))).
Proof.
  induction rest as [|[key [de dt]] rest IH]; intros fuel cs prefix Hs Hdp Hdr Hpre Hlt Hnn Hfuel.
  { simpl. rewrite !app_nil_r. apply dtor_loop_none. }
  apply BMapFacts.sorted_cons_inv in Hs as [Hs Habove].
  inversion Hdr as [|? ? He Hdr']; subst. simpl in He.
  assert (Hlt' : forall x p q, In p (prefix ++ [(key, x)]) -> In q rest -> fst p < fst q).
  { intros x p q Hp Hq. apply in_app_or in Hp as [Hp|[<-|[]]].
    - apply Hlt; [exact Hp|right; exact Hq].
    - simpl. rewrite Forall_forall in Habove. apply Habove. apply in_map. exact Hq. }
  assert (Hpk : forall p, In p prefix -> fst p < key).
  { intros p Hp. exact (Hlt p (key, mkTlsEntry de dt) Hp (or_introl eq_refl)). }
  assert (Hext : forall x, BMap.sorted (data x) -> entry_drained t (key, x) ->
            Forall (fun p => BMap.sorted (data (snd p))) (prefix ++ [(key, x)]) /\
            Forall (entry_drained t) (prefix ++ [(key, x)])).
  { intros x H1 H2. split; apply Forall_app; (split; [assumption|constructor; [assumption|constructor]]). }
  pose proof (BMapFacts.remove_old t de He) as Hold.
  pose proof (BMapFacts.get_remove_same t de He) as Hrs.
  pose proof (BMapFacts.remove_sorted t de He) as Hrsort.
  pose proof (BMapFacts.remove_absent t de) as Habs.
  rewrite drain_all_cons. unfold scan_entry.
  cbn [fetch_loop in_range pending_calls data dtor] in Hnn, Hfuel |- *.
  destruct (BMap.remove t de) as [[v|] d'] eqn:Hrm; cbn [fst snd] in Hold, Hrs, Hrsort |- *;
    rewrite <- Hold in Hnn, Hfuel |- *.
  - destruct dt as [d|].
    + (* a destructor and a value: one call, then the scan resumes after [key] *)
      destruct fuel as [|f]; [simpl in Hfuel; lia|].
      inversion Hnn as [|? ? Hv Hnn']; subst. inversion Hv as [|? ? Hv' _]; subst.
      cbn [dtor_loop fst snd]. rewrite Hv'. unfold call_function, bind. rewrite exec_pure.
      cbn [tls calls].
      assert (Hfetch : fetch_loop (Some key) t (prefix ++ (key, mkTlsEntry d' (Some d)) :: rest) =
                       (fst (fetch_loop None t rest),
                        (prefix ++ [(key, mkTlsEntry d' (Some d))]) ++ snd (fetch_loop None t rest))).
      { replace (prefix ++ (key, mkTlsEntry d' (Some d)) :: rest)
          with ((prefix ++ [(key, mkTlsEntry d' (Some d))]) ++ rest) by (rewrite <- app_assoc; reflexivity).
        rewrite fetch_loop_app_skip.
        - rewrite fetch_loop_above by exact Habove. reflexivity.
        - rewrite Forall_forall. intros p Hp. apply in_app_or in Hp as [Hp|[<-|[]]]; cbn [in_range fst].
          + apply Z.ltb_ge. apply Z.lt_le_incl. exact (Hpk p Hp).
          + apply Z.ltb_irrefl. }
      destruct (Hext (mkTlsEntry d' (Some d)) Hrsort Hrs) as [Hdp' Hpre'].
      simpl in Hfuel.
      specialize (IH f (cs ++ [(d, [v])]) (prefix ++ [(key, mkTlsEntry d' (Some d))]) Hs Hdp' Hdr' Hpre'
                    (Hlt' _) Hnn' ltac:(lia)).
      assert (Hfetch' : fetch_tls_dtor (set_keys st0 (prefix ++ (key, mkTlsEntry d' (Some d)) :: rest))
                          (Some key) t =
                        (fst (fetch_loop None t rest),
                         set_keys st0 ((prefix ++ [(key, mkTlsEntry d' (Some d))]) ++
                                       snd (fetch_loop None t rest)))).
      { unfold fetch_tls_dtor.
        replace (keys (set_keys st0 (prefix ++ (key, mkTlsEntry d' (Some d)) :: rest)))
          with (prefix ++ (key, mkTlsEntry d' (Some d)) :: rest) by reflexivity.
        rewrite Hfetch. reflexivity. }
      match goal with
      | |- context [fetch_tls_dtor ?s ?o t] =>
          destruct (fetch_tls_dtor s o t) as [r1 st1] eqn:Hft
      end.
      pose proof (eq_trans (eq_sym Hft) Hfetch') as E. injection E as -> ->.
      rewrite <- !app_assoc in IH |- *. cbn [app] in IH |- *.
      destruct (fetch_loop None t rest) as [r' rest1] eqn:Hf. cbn [fst snd] in *.
      destruct r' as [x|].
      * refine (eq_trans IH _). rewrite <- !app_assoc. reflexivity.
      * (* the scan after [key] finds nothing: the restart scan finds nothing either *)
        rewrite dtor_loop_none in IH. injection IH as Hks Hcs.
        rewrite <- app_assoc in Hks. apply app_inv_head in Hks. injection Hks as Hks. subst rest1.
        rewrite <- (app_nil_r (cs ++ [(d, [v])])) in Hcs at 1.
        apply app_inv_head in Hcs. rewrite <- Hcs.
        destruct (drain_all_drained t rest Hdr') as [Hd1 Hd2].
        assert (Hnone : fetch_loop None t (prefix ++ (key, mkTlsEntry d' (Some d)) :: drain_all t rest)
                        = (None, prefix ++ (key, mkTlsEntry d' (Some d)) :: drain_all t rest)).
        { apply fetch_loop_drained.
          - apply Forall_app. split; [exact Hdp|constructor; [exact Hrsort|exact Hd1]].
          - apply Forall_app. split; [exact Hpre|constructor; [exact Hrs|exact Hd2]]. }
        assert (Hfetch2 : fetch_tls_dtor (set_keys st0 (prefix ++ (key, mkTlsEntry d' (Some d)) :: drain_all t rest)) None t
                          = (None, set_keys st0 (prefix ++ (key, mkTlsEntry d' (Some d)) :: drain_all t rest))).
        { unfold fetch_tls_dtor. cbn [keys set_keys]. rewrite Hnone. reflexivity. }
        match goal with
        | |- context [fetch_tls_dtor ?s None t] =>
            destruct (fetch_tls_dtor s None t) as [r2 st2] eqn:Hft2
        end.
        injection Hfetch2 as -> ->.
        rewrite dtor_loop_none. reflexivity.
    + (* a value and no destructor: drained silently *)
      destruct (Hext (mkTlsEntry d' None) Hrsort Hrs) as [Hdp' Hpre'].
      specialize (IH fuel cs (prefix ++ [(key, mkTlsEntry d' None)]) Hs Hdp' Hdr' Hpre' (Hlt' _) Hnn Hfuel).
      rewrite <- !app_assoc in IH. cbn [app] in IH.
      destruct (fetch_loop None t rest) as [r' rest1]. exact IH.
  - (* no value: the entry is left as it is *)
    pose proof (Habs eq_refl) as Hdd. cbn [snd] in Hdd. subst d'.
    assert (Hde : entry_drained t (key, mkTlsEntry de dt))
      by (unfold entry_drained; simpl; symmetry; exact Hold).
    destruct (Hext (mkTlsEntry de dt) He Hde) as [Hdp' Hpre'].
    assert (IH' := IH fuel cs (prefix ++ [(key, mkTlsEntry de dt)]) Hs Hdp' Hdr' Hpre' (Hlt' _)).
    rewrite <- !app_assoc in IH'. cbn [app] in IH'.
    destruct dt as [d|]; cbn [pending_calls] in Hnn, Hfuel |- *;
      (destruct (fetch_loop None t rest) as [r' rest1]; exact (IH' Hnn Hfuel)).
Qed.

End PureDrain.

(** X13: when the callbacks leave the
    shim's state alone, a drain is fully determined: the global destructor
    is called first, then every registered destructor whose key holds a
    value for the thread, in key order, once each; afterwards every entry
    of the thread is removed, the rest of the state is as before and the
    thread is marked as running its destructors.  The values passed must be
    non-null and the fuel must cover the calls. *)
Theorem drain_pure_destructors (os : string) (t : ThreadId) (ht : ThreadId -> bool)
    (exec : Instance -> list Scalar -> TlsData -> InterpResult TlsData) (fuel : nat) (m : Machine) :
  os <> "windows"%string ->
  (forall f args st, exec f args st = Ok st) ->
  contains (dtors_running (tls m)) t = false ->
  ht t = true ->
  tls_wf (tls m) ->
  Forall (fun c => Forall (fun v => is_null v = false) (snd c)) (pending_calls t (keys (tls m))) ->
  (List.length (pending_calls t (keys (tls m))) <= fuel)%nat ->
  run_tls_dtors_for_active_thread os t ht exec fuel m =
  Some (Ok (mkMachine
              (mkTlsData (next_key (tls m)) (drain_all t (keys (tls m))) (global_dtors (tls m))
                         (hs_insert (dtors_running (tls m)) t))
              (calls m ++ global_call (tls m) t ++ pending_calls t (keys (tls m))))).
Proof.
  intros Hos Hpure Hrun Ht [Hs [Hd _]] Hnn Hfuel.
  set (st0 := mkTlsData (next_key (tls m)) (keys (tls m)) (global_dtors (tls m))
                        (hs_insert (dtors_running (tls m)) t)).
  pose proof (dtor_loop_pure exec Hpure t st0 (keys (tls m))) as HL.
  unfold run_tls_dtors_for_active_thread.
  rewrite (proj2 (String.eqb_neq os "windows"%string) Hos), Hrun.
  cbn [set_tls set_dtors_running tls calls global_dtors negb]. rewrite Ht. cbn [negb].
  unfold global_call.
  destruct (BMap.get t (global_dtors (tls m))) as [[g a]|] eqn:Hg.
  - unfold call_function, bind. rewrite Hpure. cbn [tls calls].
    specialize (HL fuel (calls m ++ [(g, [a])]) [] Hs (Forall_nil _) Hd (Forall_nil _)
                  (fun p q Hp _ => False_ind _ Hp) Hnn Hfuel).
    unfold fetch_tls_dtor, set_tls, set_dtors_running. cbn [keys tls calls set_keys].
    destruct (fetch_loop None t (keys (tls m))) as [r ks] eqn:Hf. cbn [fst snd app] in HL.
    refine (eq_trans HL _). rewrite <- app_assoc. reflexivity.
  - specialize (HL fuel (calls m) [] Hs (Forall_nil _) Hd (Forall_nil _)
                  (fun p q Hp _ => False_ind _ Hp) Hnn Hfuel).
    unfold fetch_tls_dtor, set_tls, set_dtors_running. cbn [keys tls calls set_keys].
    destruct (fetch_loop None t (keys (tls m))) as [r ks] eqn:Hf. cbn [fst snd app] in HL.
    exact HL.
Qed.

Lemma drain_pure_destructors_witness :
  run_tls_dtors_for_active_thread "linux" 0 (fun _ => true) exec_noop 3%nat
    (mkMachine (scenario 0 10%nat 30%nat (Raw 11) (Raw 22) (Raw 33)) []) =
  Some (Ok (mkMachine
              (mkTlsData (next_key (scenario 0 10%nat 30%nat (Raw 11) (Raw 22) (Raw 33)))
                 (drain_all 0 (keys (scenario 0 10%nat 30%nat (Raw 11) (Raw 22) (Raw 33))))
                 (global_dtors (scenario 0 10%nat 30%nat (Raw 11) (Raw 22) (Raw 33)))
                 (hs_insert (dtors_running (scenario 0 10%nat 30%nat (Raw 11) (Raw 22) (Raw 33))) 0))
              ([] ++ global_call (scenario 0 10%nat 30%nat (Raw 11) (Raw 22) (Raw 33)) 0
                  ++ pending_calls 0 (keys (scenario 0 10%nat 30%nat (Raw 11) (Raw 22) (Raw 33)))))).
Proof.
  apply (drain_pure_destructors "linux" 0 (fun _ => true) exec_noop 3%nat
           (mkMachine (scenario 0 10%nat 30%nat (Raw 11) (Raw 22) (Raw 33)) [])).
  - intros Hc; discriminate Hc.
  - intros f args st; reflexivity.
  - vm_compute. reflexivity.
  - reflexivity.
  - vm_compute. split; [repeat constructor; lia|split; repeat constructor].
  - vm_compute. repeat constructor; discriminate.
  - vm_compute. lia.
Defined.

(** X14: draining the destructors of a
    thread that has not terminated panics, after the thread's global
    destructor (if any) has run, when the callbacks do not fail; no TLS
    destructor is run. *)
Theorem non_terminated_drain_panics (os : string) (t : ThreadId) (ht : ThreadId -> bool)
    (exec : Instance -> list Scalar -> TlsData -> InterpResult TlsData) (fuel : nat) (m : Machine) :
  os <> "windows"%string ->
  (forall f args st, exists st', exec f args st = Ok st') ->
  contains (dtors_running (tls m)) t = false ->
  ht t = false ->
  run_tls_dtors_for_active_thread os t ht exec fuel m =
  Some (Err (Panic "running TLS dtors for non-terminated thread")).
Proof.
  intros Hos Hex Hrun Ht.
  unfold run_tls_dtors_for_active_thread.
  rewrite (proj2 (String.eqb_neq os "windows"%string) Hos), Hrun, Ht. cbn [negb].
  destruct (BMap.get t _) as [[g a]|]; [|reflexivity].
  unfold call_function, bind.
  destruct (Hex g [a] (tls (set_tls m (set_dtors_running (tls m) (hs_insert (dtors_running (tls m)) t)))))
    as [st' Hst'].
  rewrite Hst'. reflexivity.
Qed.

Lemma non_terminated_drain_panics_witness :
  run_tls_dtors_for_active_thread "linux" 0 (fun _ => false) exec_noop 3%nat
    (mkMachine (set_global_dtors (scenario 0 10%nat 30%nat (Raw 11) (Raw 22) (Raw 33))
                  [(0, (5%nat, Raw 1))]) []) =
  Some (Err (Panic "running TLS dtors for non-terminated thread")).
Proof.
  apply (non_terminated_drain_panics "linux" 0 (fun _ => false) exec_noop 3%nat).
  - intros Hc; discriminate Hc.
  - intros f args st. exists st. reflexivity.
  - vm_compute. reflexivity.
  - reflexivity.
Defined.
